(** * Personalized audio ad experiment: participant audio lifecycle, QC and
      survey delivery

    A shallow embedding of the request handlers, the audio generation script
    and the T1 page of the repository.  The participants table is a finite map
    keyed by [prolific_pid].  Every call to a hosted collaborator (database,
    storage, text-to-speech) answers with the [{ data, error }] pair of the
    client library; which of the two is set is decided outside the program, so
    each handler takes the outcomes of its calls as an argument ([Env]).
    The collaborators answer every call: an exception raised by the runtime
    itself (a rejected [fetch]) is not part of the model. *)

From Stdlib Require Import String List ZArith QArith Lia Bool.
From stdpp Require Import base option list gmap strings fin_maps pretty.

Local Open Scope string_scope.
Local Open Scope Z_scope.
Local Open Scope list_scope.

(** ** JavaScript values used by the handlers *)

(** [new Date().toISOString()]: a reading of the clock. *)
Definition Timestamp := nat.

(** Audio bytes ([Buffer], [Uint8Array]). *)
Definition Buffer := list Byte.byte.

(** Truthiness of a [string | null | undefined]: [!s] is [negb (truthy s)]. *)
Definition truthy (s : option string) : bool :=
  match s with
  | Some v => negb (String.eqb v "")
  | None => false
  end.

(** [s || d] for a nullable string. *)
Definition str_or (s : option string) (d : string) : string :=
  match s with
  | Some v => if String.eqb v "" then d else v
  | None => d
  end.

(** [s || null]. *)
Definition str_or_null (s : option string) : option string :=
  if truthy s then s else None.

(** [s === lit] for a nullable string against a string literal. *)
Definition is_str (s : option string) (lit : string) : bool :=
  match s with
  | Some v => String.eqb v lit
  | None => false
  end.

(** A value caught by [catch (err)]: an [Error] with its message, or
    anything else. *)
Inductive Thrown :=
| JsError (message : string)
| JsOther.

(** [err instanceof Error ? err.message : 'Unknown error']. *)
Definition error_message (err : Thrown) : string :=
  match err with
  | JsError m => m
  | JsOther => "Unknown error"
  end.

(** ** The database and the storage bucket *)

Record Participant := mkParticipant {
  study_id_t0 : option string;
  session_id_t0 : option string;
  condition : option string;
  t0_completed_at : option Timestamp;
  t1_completed_at : option Timestamp;
  audio_status : option string;
  audio_path : option string;
  audio_error : option string;
  audio_generated_at : option Timestamp;
  qc_status : string;
  qc_checked_at : option Timestamp;
  qc_notes : option string;
  qc_replaced_count : Z
}.

(** Modelled from the spec: the CREATE TABLE statement of [participants] is
    not in the repository (only the migration that adds the QC columns is).
    The spec gives the initial audio status as pending, set at record
    creation; the QC defaults are those of [add_qc_columns.sql]; every other
    column is nullable and starts as NULL. *)
Definition column_defaults : Participant :=
  {| study_id_t0 := None; session_id_t0 := None; condition := None;
     t0_completed_at := None; t1_completed_at := None;
     audio_status := Some "pending"; audio_path := None; audio_error := None;
     audio_generated_at := None;
     qc_status := "pending"; qc_checked_at := None; qc_notes := None;
     qc_replaced_count := 0 |}.

(** The payload stored with a T1 response: [{}] or the object the T1 page
    sends, [{ answers, completed_at }]. *)
Inductive Payload :=
| EmptyObject
| SurveyPayload (answers : gmap string Z) (completed_at : Timestamp).

Record ResponseRow := mkResponseRow {
  resp_prolific_pid : string;
  response_payload : Payload
}.

(** Tables [participants] (rows keyed by the unique column [prolific_pid])
    and [responses_t1], the bucket [ads-audio], and the requests the
    text-to-speech provider has received. *)
Record World := mkWorld {
  participants : gmap string Participant;
  responses_t1 : list ResponseRow;
  storage : gmap string Buffer;
  tts_requests : list string
}.

Definition set_participants (db : gmap string Participant) (w : World) : World :=
  mkWorld db (responses_t1 w) (storage w) (tts_requests w).

(** The error half of a [{ data, error }] result. *)
Record PgError := mkPgError { code : string; message : string }.

(** [.select(...).eq('prolific_pid', pid).single()]: the error of a failed
    call, error code PGRST116 when no row matches, the row otherwise. *)
Definition select_single (db : gmap string Participant) (fault : option PgError)
    (pid : string) : PgError + Participant :=
  match fault with
  | Some e => inl e
  | None =>
      match db !! pid with
      | Some p => inr p
      | None => inl (mkPgError "PGRST116" "JSON object requested, multiple (or no) rows returned")
      end
  end.

(** [.update(fields).eq('prolific_pid', pid)]: a failed call changes nothing;
    otherwise the matching row, if there is one, gets the fields. *)
Definition update_eq (db : gmap string Participant) (fault : option PgError)
    (pid : string) (fields : Participant -> Participant)
    : option PgError * gmap string Participant :=
  match fault with
  | Some e => (Some e, db)
  | None => (None, alter fields pid db)
  end.

(** [storage.from('ads-audio').upload(path, buffer, { upsert: true })]. *)
Definition storage_upload (st : gmap string Buffer) (fault : option string)
    (path : string) (buffer : Buffer) : option string * gmap string Buffer :=
  match fault with
  | Some m => (Some m, st)
  | None => (None, <[path := buffer]> st)
  end.

(** A simple JSON reply: [{ ok: true }], or [{ ok: false, error }] with its
    HTTP status. *)
Inductive Reply :=
| ReplyOk
| ReplyFailure (http : nat) (error : string).

(** ** GET /api/t1/get-audio *)

Module GetAudio.

(** The JSON body of a response; an absent key is [None]. *)
Record Body := mkBody {
  ok : bool;
  found : option bool;
  status : option string;
  audio_url : option string;
  error : option string;
  r_prolific_pid : option string;
  r_condition : option string;
  r_audio_path : option string;
  r_audio_error : option string;
  r_audio_generated_at : option Timestamp
}.

Definition failure (msg : string) : Body :=
  mkBody false None None None (Some msg) None None None None None.

Definition not_found : Body :=
  mkBody true (Some false) (Some "not_found") None None None None None None None.

(** Outcomes of the two collaborator calls of the handler: the row lookup and
    [createSignedUrl(path, 600)] ([None]: signing failed). *)
Record Env := mkEnv {
  select_fault : option PgError;
  sign : string -> option string
}.

(** STEP 5: a signed URL is minted only for [audio_status === 'generated']
    with a truthy [audio_path]; a signing error leaves the URL [null]. *)
Definition signed_url (env : Env) (p : Participant) : option string :=
  if is_str (audio_status p) "generated" && truthy (audio_path p) then
    match audio_path p with
    | Some path => sign env path
    | None => None
    end
  else None.

(** The handler: HTTP status and JSON body. *)
Definition GET (db : gmap string Participant) (env : Env)
    (prolific_pid : option string) : nat * Body :=
  match prolific_pid with
  | None => (400%nat, failure "Missing prolific_pid")
  | Some pid =>
      if negb (truthy prolific_pid) then (400%nat, failure "Missing prolific_pid")
      else
        match select_single db (select_fault env) pid with
        | inl e =>
            if String.eqb (code e) "PGRST116" then (200%nat, not_found)
            else (500%nat, failure (message e))
        | inr p =>
            (200%nat,
             mkBody true (Some true) (audio_status p) (signed_url env p) None
                    (Some pid) (condition p) (audio_path p) (audio_error p)
                    (audio_generated_at p))
        end
  end.

End GetAudio.

(** ** POST /api/t0/submit *)

Module T0Submit.

(** The parsed JSON body; an absent key is [None]. *)
Record Request := mkRequest {
  prolific_pid : option string;
  study_id : option string;
  session_id : option string;
  t0_payload : option (list (string * string))
}.

Inductive Response :=
| Saved (pid : string) (payload_keys : list string)
| BadRequest (error : string)
| ServerError (error : string) (details : option string).

Definition http_status (r : Response) : nat :=
  match r with
  | Saved _ _ => 200
  | BadRequest _ => 400
  | ServerError _ _ => 500
  end%nat.

(** [.upsert({ prolific_pid, study_id_t0, session_id_t0, condition: 'low',
    t0_completed_at }, { onConflict: 'prolific_pid' })]: the columns of the
    payload are written, on a new row or over the row with that key; a key
    whose value is [undefined] is not in the JSON payload; the other columns
    keep their value (their default on a new row). *)
Definition upsert_fields (study session : option string) (now : Timestamp)
    (old : Participant) : Participant :=
  {| study_id_t0 := match study with Some s => Some s | None => study_id_t0 old end;
     session_id_t0 := match session with Some s => Some s | None => session_id_t0 old end;
     condition := Some "low";
     t0_completed_at := Some now;
     t1_completed_at := t1_completed_at old;
     audio_status := audio_status old;
     audio_path := audio_path old;
     audio_error := audio_error old;
     audio_generated_at := audio_generated_at old;
     qc_status := qc_status old;
     qc_checked_at := qc_checked_at old;
     qc_notes := qc_notes old;
     qc_replaced_count := qc_replaced_count old |}.

Definition upsert (db : gmap string Participant) (fault : option PgError)
    (pid : string) (study session : option string) (now : Timestamp)
    : option PgError * gmap string Participant :=
  match fault with
  | Some e => (Some e, db)
  | None =>
      (None,
       <[pid := upsert_fields study session now (default column_defaults (db !! pid))]> db)
  end.

(** The handler.  [body = None]: [request.json()] threw. *)
Definition POST (db : gmap string Participant) (upsert_fault : option PgError)
    (now : Timestamp) (body : option Request) : Response * gmap string Participant :=
  match body with
  | None => (ServerError "Invalid request body or server error" None, db)
  | Some b =>
      match prolific_pid b with
      | None => (BadRequest "Missing required field: prolific_pid", db)
      | Some pid =>
          if negb (truthy (prolific_pid b)) then
            (BadRequest "Missing required field: prolific_pid", db)
          else
            match t0_payload b with
            | None => (BadRequest "Missing required field: t0_payload", db)
            | Some payload =>
                match upsert db upsert_fault pid (study_id b) (session_id b) now with
                | (Some e, db') => (ServerError "Database error" (Some (message e)), db')
                | (None, db') => (Saved pid (map fst payload), db')
                end
            end
      end
  end.

End T0Submit.

(** ** POST /api/t1/submit *)

Module T1Submit.

Record Request := mkRequest {
  prolific_pid : option string;
  response_payload : option Payload
}.

(** Outcomes of the two database calls. *)
Record Env := mkEnv {
  insert_fault : option PgError;
  update_fault : option PgError
}.

(** The writes the database has accepted, in the order they were issued. *)
Inductive Write :=
| InsertedResponse (row : ResponseRow)
| StampedCompletion (pid : string) (at_ : Timestamp).

Definition stamp_t1 (timestamp : Timestamp) (p : Participant) : Participant :=
  {| study_id_t0 := study_id_t0 p; session_id_t0 := session_id_t0 p;
     condition := condition p; t0_completed_at := t0_completed_at p;
     t1_completed_at := Some timestamp;
     audio_status := audio_status p; audio_path := audio_path p;
     audio_error := audio_error p; audio_generated_at := audio_generated_at p;
     qc_status := qc_status p; qc_checked_at := qc_checked_at p;
     qc_notes := qc_notes p; qc_replaced_count := qc_replaced_count p |}.

(** [.from('responses_t1').insert(row)]. *)
Definition insert_response (rows : list ResponseRow) (fault : option PgError)
    (row : ResponseRow) : option PgError * list ResponseRow :=
  match fault with
  | Some e => (Some e, rows)
  | None => (None, rows ++ [row])
  end.

(** The handler: reply, resulting state and accepted writes.
    [body = inl err]: [request.json()] threw [err]. *)
Definition POST (w : World) (env : Env) (timestamp : Timestamp)
    (body : Thrown + Request) : Reply * World * list Write :=
  match body with
  | inl err => (ReplyFailure 500 (error_message err), w, [])
  | inr b =>
      match prolific_pid b with
      | None => (ReplyFailure 400 "Missing prolific_pid", w, [])
      | Some pid =>
          if negb (truthy (prolific_pid b)) then
            (ReplyFailure 400 "Missing prolific_pid", w, [])
          else
            let row := mkResponseRow pid (default EmptyObject (response_payload b)) in
            match insert_response (responses_t1 w) (insert_fault env) row with
            | (Some insertError, _) => (ReplyFailure 500 (message insertError), w, [])
            | (None, rows) =>
                let w1 := mkWorld (participants w) rows (storage w) (tts_requests w) in
                match update_eq (participants w1) (update_fault env) pid (stamp_t1 timestamp) with
                | (Some updateError, _) =>
                    (ReplyFailure 500 (message updateError), w1, [InsertedResponse row])
                | (None, db) =>
                    (ReplyOk, set_participants db w1,
                     match participants w1 !! pid with
                     | Some _ => [InsertedResponse row; StampedCompletion pid timestamp]
                     | None => [InsertedResponse row]
                     end)
                end
            end
      end
  end.

End T1Submit.

(** ** The QC routes: approve, needs-fix, replace-audio *)

Module QC.

(** The parsed JSON body [{ prolific_pid, qc_notes }]. *)
Record Request := mkRequest {
  prolific_pid : option string;
  body_qc_notes : option string
}.

Definition review (verdict : string) (now : Timestamp) (notes : option string)
    (p : Participant) : Participant :=
  {| study_id_t0 := study_id_t0 p; session_id_t0 := session_id_t0 p;
     condition := condition p; t0_completed_at := t0_completed_at p;
     t1_completed_at := t1_completed_at p;
     audio_status := audio_status p; audio_path := audio_path p;
     audio_error := audio_error p; audio_generated_at := audio_generated_at p;
     qc_status := verdict;
     qc_checked_at := Some now;
     qc_notes := str_or_null notes;
     qc_replaced_count := qc_replaced_count p |}.

Definition review_POST (verdict : string) (db : gmap string Participant)
    (update_fault : option PgError) (now : Timestamp) (body : Thrown + Request)
    : Reply * gmap string Participant :=
  match body with
  | inl err => (ReplyFailure 500 (error_message err), db)
  | inr b =>
      match prolific_pid b with
      | None => (ReplyFailure 400 "Missing prolific_pid", db)
      | Some pid =>
          if negb (truthy (prolific_pid b)) then (ReplyFailure 400 "Missing prolific_pid", db)
          else
            match update_eq db update_fault pid (review verdict now (body_qc_notes b)) with
            | (Some e, db') => (ReplyFailure 500 (message e), db')
            | (None, db') => (ReplyOk, db')
            end
      end
  end.

(** POST /api/admin/qc/approve *)
Definition approve_POST := review_POST "approved".

(** POST /api/admin/qc/needs-fix *)
Definition needs_fix_POST := review_POST "needs_fix".

(** The multipart form of replace-audio. *)
Record ReplaceForm := mkReplaceForm {
  f_prolific_pid : option string;
  f_file : option Buffer;
  f_qc_notes : option string
}.

(** Outcomes of the three collaborator calls of replace-audio: the upload,
    the read of [qc_replaced_count] and the update. *)
Record ReplaceEnv := mkReplaceEnv {
  upload_fault : option string;
  read_fault : option PgError;
  update_fault : option PgError
}.

(** [currentData?.qc_replaced_count || 0]: [currentData] is [null] when the
    read returned an error. *)
Definition currentCount (db : gmap string Participant) (fault : option PgError)
    (pid : string) : Z :=
  match select_single db fault pid with
  | inr currentData => qc_replaced_count currentData
  | inl _ => 0
  end.

Definition replaced (audioPath : string) (now_generated now_checked : Timestamp)
    (qcNotes : option string) (count : Z) (p : Participant) : Participant :=
  {| study_id_t0 := study_id_t0 p; session_id_t0 := session_id_t0 p;
     condition := condition p; t0_completed_at := t0_completed_at p;
     t1_completed_at := t1_completed_at p;
     audio_status := Some "generated";
     audio_path := Some audioPath;
     audio_error := None;
     audio_generated_at := Some now_generated;
     qc_status := "pending";
     qc_checked_at := Some now_checked;
     qc_notes := str_or_null qcNotes;
     qc_replaced_count := count + 1 |}.

(** POST /api/admin/qc/replace-audio.  The two clock readings are those of
    the two [new Date()] of the update. *)
Definition replace_audio_POST (w : World) (env : ReplaceEnv)
    (now_generated now_checked : Timestamp) (form : ReplaceForm) : Reply * World :=
  match f_prolific_pid form with
  | None => (ReplyFailure 400 "Missing prolific_pid", w)
  | Some prolificPid =>
      if negb (truthy (f_prolific_pid form)) then (ReplyFailure 400 "Missing prolific_pid", w)
      else
        match f_file form with
        | None => (ReplyFailure 400 "Missing file", w)
        | Some buffer =>
            let audioPath := prolificPid +:+ ".mp3" in
            match storage_upload (storage w) (upload_fault env) audioPath buffer with
            | (Some uploadError, _) => (ReplyFailure 500 uploadError, w)
            | (None, st) =>
                let w1 := mkWorld (participants w) (responses_t1 w) st (tts_requests w) in
                let count := currentCount (participants w1) (read_fault env) prolificPid in
                match update_eq (participants w1) (update_fault env) prolificPid
                        (replaced audioPath now_generated now_checked (f_qc_notes form) count) with
                | (Some updateError, _) => (ReplyFailure 500 (message updateError), w1)
                | (None, db) => (ReplyOk, set_participants db w1)
                end
            end
        end
  end.

End QC.

(** ** The audio generation script *)

Module Batch.

Definition BATCH_SIZE : nat := 50.

Definition TEXTS_low : string :=
  "Welcome back to the podcast. This is the low personalization test ad. Now back to the episode.".
Definition TEXTS_medium : string :=
  "Welcome back to the podcast. This is the medium personalization test ad. Now back to the episode.".
Definition TEXTS_high : string :=
  "Welcome back to the podcast. This is the high personalization test ad. Now back to the episode.".

(** The answer of the text-to-speech provider: audio, or a response that is
    not [ok], with its status and body. *)
Inductive TtsOutcome :=
| TtsAudio (audio : Buffer)
| TtsHttpError (status : nat) (errorText : string).

Definition with_storage (st : gmap string Buffer) (w : World) : World :=
  mkWorld (participants w) (responses_t1 w) st (tts_requests w).

Definition with_tts_request (text : string) (w : World) : World :=
  mkWorld (participants w) (responses_t1 w) (storage w) (tts_requests w ++ [text]).

(** [generateAudio(text)]: returns the buffer or throws. *)
Definition generateAudio (tts : string -> TtsOutcome) (text : string) (w : World)
    : (Thrown + Buffer) * World :=
  match tts text with
  | TtsAudio audio => (inr audio, with_tts_request text w)
  | TtsHttpError status errorText =>
      (inl (JsError ("ElevenLabs API error: " +:+ pretty status +:+ " - " +:+ errorText)),
       with_tts_request text w)
  end.

(** [uploadAudio(path, buffer)]: returns or throws. *)
Definition uploadAudio (fault : option string) (path : string) (buffer : Buffer)
    (w : World) : option Thrown * World :=
  match storage_upload (storage w) fault path buffer with
  | (Some m, _) => (Some (JsError ("Supabase upload error: " +:+ m)), w)
  | (None, st) => (None, with_storage st w)
  end.

(** [name] contains [search]. *)
Definition contains (search name : string) : bool :=
  match String.index 0 search name with
  | Some _ => true
  | None => false
  end.

(** [storage.from('ads-audio').list('', { search })]: [data] is [null] when
    the call fails, and the names of the objects that match otherwise (the
    page size of the listing is not modelled). *)
Definition storage_list (st : gmap string Buffer) (fault : bool) (search : string)
    : option (list string) :=
  if fault then None
  else Some (List.filter (contains search) (map fst (map_to_list st))).

(** [existingFile?.some(f => f.name === 'low.mp3')], as a truth value. *)
Definition lowFileExists (existingFile : option (list string)) : bool :=
  match existingFile with
  | Some files => existsb (String.eqb "low.mp3") files
  | None => false
  end.

Definition mark_generated (audioPath : string) (now : Timestamp) (p : Participant)
    : Participant :=
  {| study_id_t0 := study_id_t0 p; session_id_t0 := session_id_t0 p;
     condition := condition p; t0_completed_at := t0_completed_at p;
     t1_completed_at := t1_completed_at p;
     audio_status := Some "generated";
     audio_path := Some audioPath;
     audio_error := None;
     audio_generated_at := Some now;
     qc_status := qc_status p; qc_checked_at := qc_checked_at p;
     qc_notes := qc_notes p; qc_replaced_count := qc_replaced_count p |}.

Definition mark_error (errorMsg : string) (p : Participant) : Participant :=
  {| study_id_t0 := study_id_t0 p; session_id_t0 := session_id_t0 p;
     condition := condition p; t0_completed_at := t0_completed_at p;
     t1_completed_at := t1_completed_at p;
     audio_status := Some "error";
     audio_path := audio_path p;
     audio_error := Some errorMsg;
     audio_generated_at := audio_generated_at p;
     qc_status := qc_status p; qc_checked_at := qc_checked_at p;
     qc_notes := qc_notes p; qc_replaced_count := qc_replaced_count p |}.

(** [.eq('condition', 'low').eq('audio_status', 'pending')] *)
Definition is_low_pending (p : Participant) : bool :=
  is_str (condition p) "low" && is_str (audio_status p) "pending".

(** [.in('condition', ['medium', 'high']).eq('audio_status', 'pending')] *)
Definition is_medium_high_pending (p : Participant) : bool :=
  (is_str (condition p) "medium" || is_str (condition p) "high")
  && is_str (audio_status p) "pending".

(** The bulk update of [processLowCondition] and the rows it returns. *)
Definition update_low_pending (db : gmap string Participant) (now : Timestamp)
    : gmap string Participant :=
  (fun p => if is_low_pending p then mark_generated "low.mp3" now p else p) <$> db.

Definition updated_rows (db : gmap string Participant) : list string :=
  map fst (List.filter (fun kp => is_low_pending (snd kp)) (map_to_list db)).

(** Outcomes of the collaborator calls of [processLowCondition]. *)
Record LowEnv := mkLowEnv {
  list_fault : bool;
  low_tts : string -> TtsOutcome;
  low_upload_fault : option string;
  low_update_fault : option PgError;
  low_now : Timestamp
}.

(** The line the function prints before it returns. *)
Inductive LowReport :=
| ArtifactFailed (err : Thrown)
| UpdateFailed (errorMessage : string)
| Updated (count : nat).

(** The bulk update, after the artifact is known to exist. *)
Definition low_bulk_update (env : LowEnv) (w : World) : nat * LowReport * World :=
  match low_update_fault env with
  | Some e => (0%nat, UpdateFailed (message e), w)
  | None =>
      let count := length (updated_rows (participants w)) in
      (count, Updated count,
       set_participants (update_low_pending (participants w) (low_now env)) w)
  end.

(** [processLowCondition()]: the returned count, the line printed and the
    resulting state. *)
Definition processLowCondition (env : LowEnv) (w : World) : nat * LowReport * World :=
  let existingFile := storage_list (storage w) (list_fault env) "low.mp3" in
  if negb (lowFileExists existingFile) then
    match generateAudio (low_tts env) TEXTS_low w with
    | (inl err, w1) => (0%nat, ArtifactFailed err, w1)
    | (inr audioBuffer, w1) =>
        match uploadAudio (low_upload_fault env) "low.mp3" audioBuffer w1 with
        | (Some err, w2) => (0%nat, ArtifactFailed err, w2)
        | (None, w2) => low_bulk_update env w2
        end
    end
  else low_bulk_update env w.

(** Outcomes of the collaborator calls made for one medium/high record: the
    synthesis, the upload and the one status update (in the [try] or in the
    [catch]), and the clock at the update. *)
Record RecordEnv := mkRecordEnv {
  tts : string -> TtsOutcome;
  upload_fault : option string;
  status_update_fault : option PgError;
  now : Timestamp
}.

(** Outcomes of [processMediumHighConditions]: the fetch, the order in which
    the database returns rows, and the calls made for each record. *)
Record Env := mkEnv {
  fetch_fault : option PgError;
  row_order : gmap string Participant -> list (string * Participant);
  record_env : string -> RecordEnv
}.

(** The fetch: [prolific_pid] and [condition] of at most [BATCH_SIZE] pending
    medium/high rows; [null] when the call fails. *)
Definition fetch_pending (env : Env) (db : gmap string Participant)
    : option (list (string * option string)) :=
  match fetch_fault env with
  | Some _ => None
  | None =>
      Some (map (fun kp => (fst kp, condition (snd kp)))
                (take BATCH_SIZE
                   (List.filter (fun kp => is_medium_high_pending (snd kp))
                      (row_order env db))))
  end.

(** The [catch] block of the loop body. *)
Definition on_catch (renv : RecordEnv) (pid : string) (err : Thrown) (w : World) : World :=
  let errorMsg := error_message err in
  set_participants
    (snd (update_eq (participants w) (status_update_fault renv) pid
            (mark_error (String.substring 0 500 errorMsg)))) w.

(** One iteration of the loop: [true] when [generated++] ran, [false] when
    [errors++] did. *)
Definition process_record (renv : RecordEnv) (pid : string) (cond : option string)
    (w : World) : bool * World :=
  let text := if is_str cond "medium" then TEXTS_medium else TEXTS_high in
  let audioPath := pid +:+ ".mp3" in
  match generateAudio (tts renv) text w with
  | (inl err, w1) => (false, on_catch renv pid err w1)
  | (inr audioBuffer, w1) =>
      match uploadAudio (upload_fault renv) audioPath audioBuffer w1 with
      | (Some err, w2) => (false, on_catch renv pid err w2)
      | (None, w2) =>
          (true,
           set_participants
             (snd (update_eq (participants w2) (status_update_fault renv) pid
                     (mark_generated audioPath (now renv)))) w2)
      end
  end.

(** [for (const p of participants) { ... }] with the two counters. *)
Fixpoint process_all (env : Env) (rows : list (string * option string))
    (generated errors : nat) (w : World) : nat * nat * World :=
  match rows with
  | [] => (generated, errors, w)
  | (pid, cond) :: rest =>
      match process_record (record_env env pid) pid cond w with
      | (true, w') => process_all env rest (S generated) errors w'
      | (false, w') => process_all env rest generated (S errors) w'
      end
  end.

(** [processMediumHighConditions()]: [{ generated, errors }] and the
    resulting state. *)
Definition processMediumHighConditions (env : Env) (w : World) : nat * nat * World :=
  match fetch_pending env (participants w) with
  | None => (0%nat, 0%nat, w)
  | Some [] => (0%nat, 0%nat, w)
  | Some rows => process_all env rows 0 0 w
  end.

(** [main()]: the three counts of the summary. *)
Definition main (lenv : LowEnv) (env : Env) (w : World) : nat * nat * nat * World :=
  let '(lowUpdated, _, w1) := processLowCondition lenv w in
  let '(generated, errors, w2) := processMediumHighConditions env w1 in
  (lowUpdated, generated, errors, w2).

End Batch.

(** ** The T1 page *)

Module T1Page.

(** *** The questionnaire configuration ([t1_items]) *)

Inductive ScaleType := likert | semantic_differential.

(** An item; its texts ([text], [prompt], [left], [right]) play no part in
    the flow and are left out. *)
Record Item := mkItem { item_id : string; active : bool }.

Record Scale := mkScale {
  scale_id : string;
  scale_label : string;
  scale_type : ScaleType;
  items : list Item
}.

Definition T1_ITEMS : list Scale :=
  [ mkScale "relevance" "Perceived Ad Relevance" likert
      [ mkItem "rel1" true; mkItem "rel2" true; mkItem "rel3" true;
        mkItem "rel4" true; mkItem "rel5" true; mkItem "rel6" true;
        mkItem "rel7" true; mkItem "rel8" true; mkItem "rel9" true;
        mkItem "rel10" true ];
    mkScale "intrusiveness" "Perceived Ad Intrusiveness" likert
      [ mkItem "int1" true; mkItem "int2" true; mkItem "int3" true;
        mkItem "int4" true; mkItem "int5" true; mkItem "int6" true;
        mkItem "int7" true ];
    mkScale "attitude" "Attitude Toward the Ad" semantic_differential
      [ mkItem "att1" true; mkItem "att2" true; mkItem "att3" true;
        mkItem "att4" true ];
    mkScale "purchase_intention" "Purchase Intention" semantic_differential
      [ mkItem "pi1" true; mkItem "pi2" true; mkItem "pi3" true ];
    mkScale "privacy_concerns" "Privacy Concerns" likert
      [ mkItem "priv1" true; mkItem "priv2" true; mkItem "priv3" true;
        mkItem "priv4" true ] ].

(** *** Component state *)

Inductive Step := loading | audio | survey | submitting | complete | error.

#[global] Instance Step_eq_dec : EqDecision Step.
Proof. solve_decision. Defined.

Record State := mkState {
  step : Step;
  errorMessage : string;
  audioUrl : option string;
  currentScaleIndex : nat;
  answers : gmap string Z;
  canContinueAudio : bool;
  playTime : Q
}.

Definition initial : State := mkState loading "" None 0 ∅ false 0%Q.

Definition fail (msg : string) (st : State) : State :=
  mkState error msg (audioUrl st) (currentScaleIndex st) (answers st)
          (canContinueAudio st) (playTime st).

Definition setStep (s : Step) (st : State) : State :=
  mkState s (errorMessage st) (audioUrl st) (currentScaleIndex st) (answers st)
          (canContinueAudio st) (playTime st).

Definition setCanContinueAudio (b : bool) (st : State) : State :=
  mkState (step st) (errorMessage st) (audioUrl st) (currentScaleIndex st)
          (answers st) b (playTime st).

Section Page.

(** The scales of the configuration. *)
Variable scales : list Scale.

(** Scales with at least one active item. *)
Definition activeScales : list Scale :=
  List.filter (fun scale => existsb active (items scale)) scales.

Definition totalSteps : nat := (length activeScales + 1)%nat.

(** The effect run on mount, with [fetchAudio] inlined.  [fetched] is the
    parsed body of the response, [None] when [fetch] or [json()] threw. *)
Definition fetchAudio (prolificPid : option string) (fetched : option GetAudio.Body)
    (st : State) : State :=
  if negb (truthy prolificPid) then fail "Missing PROLIFIC_PID" st
  else
    match fetched with
    | None => fail "Failed to load audio" st
    | Some data =>
        if negb (GetAudio.ok data) then
          fail (str_or (GetAudio.error data) "Failed to fetch audio") st
        else if bool_decide (GetAudio.found data = Some false) then
          fail "Participant not found. Please complete part 1 first." st
        else if is_str (GetAudio.status data) "pending" then
          fail "Your audio is still being generated. Please try again later." st
        else if is_str (GetAudio.status data) "qc_pending" then
          fail "Your audio is under review. Please try again later." st
        else if negb (is_str (GetAudio.status data) "ready")
                || negb (truthy (GetAudio.audio_url data)) then
          fail "Your audio is not available." st
        else
          mkState audio (errorMessage st) (GetAudio.audio_url data)
                  (currentScaleIndex st) (answers st) (canContinueAudio st)
                  (playTime st)
    end.

(** [handleTimeUpdate]; [currentTime] is [None] when [audioRef.current] is
    [null]. *)
Definition handleTimeUpdate (currentTime : option Q) (st : State) : State :=
  match currentTime with
  | None => st
  | Some t =>
      let st1 := mkState (step st) (errorMessage st) (audioUrl st)
                         (currentScaleIndex st) (answers st)
                         (canContinueAudio st) t in
      if Qle_bool 2 t && negb (canContinueAudio st) then setCanContinueAudio true st1
      else st1
  end.

Definition handleAudioEnded (st : State) : State := setCanContinueAudio true st.

(** [isCurrentScaleComplete()]; [None] is the TypeError raised on
    [scale.items] when [activeScales[currentScaleIndex]] is [undefined]. *)
Definition isCurrentScaleComplete (st : State) : option bool :=
  if negb (bool_decide (step st = survey)) then Some false
  else
    match activeScales !! currentScaleIndex st with
    | None => None
    | Some scale =>
        let activeItems := List.filter active (items scale) in
        Some (forallb (fun item => bool_decide (is_Some (answers st !! item_id item)))
                      activeItems)
    end.

Definition handleAnswerChange (itemId : string) (value : Z) (st : State) : State :=
  mkState (step st) (errorMessage st) (audioUrl st) (currentScaleIndex st)
          (<[itemId := value]> (answers st)) (canContinueAudio st) (playTime st).

(** [handleContinue], up to the request of [handleSubmit]: on the last scale
    the step becomes [submitting]. *)
Definition handleContinue (st : State) : State :=
  match step st with
  | audio => setStep survey st
  | survey =>
      if bool_decide (currentScaleIndex st < length activeScales - 1)%nat then
        mkState (step st) (errorMessage st) (audioUrl st)
                (S (currentScaleIndex st)) (answers st) (canContinueAudio st)
                (playTime st)
      else setStep submitting st
  | _ => st
  end.

(** The body [handleSubmit] posts to /api/t1/submit. *)
Definition submit_body (prolificPid : option string) (completed_at : Timestamp)
    (st : State) : T1Submit.Request :=
  T1Submit.mkRequest prolificPid (Some (SurveyPayload (answers st) completed_at)).

(** The rest of [handleSubmit], once the request has settled; [None] when
    [fetch] or [json()] threw. *)
Definition handleSubmit_settled (outcome : option Reply) (st : State) : State :=
  match outcome with
  | None => fail "Failed to submit responses" st
  | Some ReplyOk => setStep complete st
  | Some (ReplyFailure _ e) => fail (str_or (Some e) "Submission failed") st
  end.

(** *** What the rendered page lets happen *)

Inductive Event :=
| Mounted (prolificPid : option string) (fetched : option GetAudio.Body)
| TimeUpdate (currentTime : Q)
| Ended
| RadioChange (itemId : string) (val : Z)
| ClickContinue
| SubmitSettled (outcome : option Reply).

(** The radio inputs of the survey step: one per active item of the current
    scale and per value of [[1, 2, 3, 4, 5, 6, 7]]. *)
Definition radio_rendered (st : State) (itemId : string) (val : Z) : bool :=
  match activeScales !! currentScaleIndex st with
  | None => false
  | Some currentScale =>
      existsb (fun item => String.eqb (item_id item) itemId)
              (List.filter active (items currentScale))
      && existsb (Z.eqb val) [1; 2; 3; 4; 5; 6; 7]
  end.

(** The Continue / Submit button is there and not [disabled]. *)
Definition continue_enabled (st : State) : bool :=
  match step st with
  | audio => canContinueAudio st
  | survey =>
      match isCurrentScaleComplete st with
      | Some b => b
      | None => false
      end
  | _ => false
  end.

(** An event can occur only on an element the current step renders. *)
Definition can_occur (st : State) (ev : Event) : bool :=
  match ev with
  | Mounted _ _ => bool_decide (step st = loading)
  | TimeUpdate _ | Ended => bool_decide (step st = audio)
  | RadioChange itemId val => bool_decide (step st = survey) && radio_rendered st itemId val
  | ClickContinue => continue_enabled st
  | SubmitSettled _ => bool_decide (step st = submitting)
  end.

Definition handle (ev : Event) (st : State) : State :=
  match ev with
  | Mounted prolificPid fetched => fetchAudio prolificPid fetched st
  | TimeUpdate t => handleTimeUpdate (Some t) st
  | Ended => handleAudioEnded st
  | RadioChange itemId val => handleAnswerChange itemId val st
  | ClickContinue => handleContinue st
  | SubmitSettled outcome => handleSubmit_settled outcome st
  end.

Definition dispatch (st : State) (ev : Event) : State :=
  if can_occur st ev then handle ev st else st.

Definition run (evs : list Event) (st : State) : State :=
  fold_left dispatch evs st.

End Page.

(** The page against the server: the response the mounted page receives from
    GET /api/t1/get-audio for the [PROLIFIC_PID] of its URL. *)
Definition load (scales : list Scale) (db : gmap string Participant)
    (env : GetAudio.Env) (prolificPid : option string) : State :=
  dispatch scales initial
    (Mounted prolificPid (Some (snd (GetAudio.GET db env prolificPid)))).

End T1Page.

(** * Scenarios and predicates of the statements *)

(** A high-condition row whose audio is generated and not yet reviewed. *)
Definition high_generated_unreviewed : Participant :=
  {| study_id_t0 := Some "study456"; session_id_t0 := Some "sess789";
     condition := Some "high";
     t0_completed_at := Some 1%nat; t1_completed_at := None;
     audio_status := Some "generated"; audio_path := Some "P7.mp3";
     audio_error := None; audio_generated_at := Some 2%nat;
     qc_status := "pending"; qc_checked_at := None; qc_notes := None;
     qc_replaced_count := 0 |}.

(** The row lookup succeeds and every path can be signed. *)
Definition signing_env : GetAudio.Env :=
  GetAudio.mkEnv None (fun path => Some ("https://storage/sign/ads-audio/" +:+ path)).

(** A low-condition row as T0 leaves it, and the same row after the batch. *)
Definition low_pending : Participant :=
  {| study_id_t0 := Some "study456"; session_id_t0 := Some "sess789";
     condition := Some "low";
     t0_completed_at := Some 1%nat; t1_completed_at := None;
     audio_status := Some "pending"; audio_path := None;
     audio_error := None; audio_generated_at := None;
     qc_status := "pending"; qc_checked_at := None; qc_notes := None;
     qc_replaced_count := 0 |}.

Definition low_generated : Participant := Batch.mark_generated "low.mp3" 2%nat low_pending.

(** A provider that answers with audio, and one that refuses. *)
Definition provider_up (text : string) : Batch.TtsOutcome :=
  Batch.TtsAudio [Byte.x49; Byte.x44; Byte.x33].
Definition provider_down (text : string) : Batch.TtsOutcome :=
  Batch.TtsHttpError 429 "quota exceeded".

(** Runs of the low branch: every call answered; the listing refused; the
    provider refusing. *)
Definition low_env_ok : Batch.LowEnv := Batch.mkLowEnv false provider_up None None 2%nat.
Definition low_env_unlisted : Batch.LowEnv := Batch.mkLowEnv true provider_up None None 3%nat.
Definition low_env_down : Batch.LowEnv := Batch.mkLowEnv false provider_down None None 2%nat.

(** The scenario of the claim, run through the code: [P1] submits T0 on an
    empty table, then the low branch of the script runs with every
    collaborator answering. *)
Definition p1_submission : option T0Submit.Request :=
  Some (T0Submit.mkRequest (Some "P1") (Some "study456") (Some "sess789")
          (Some [("first_name", "Ada"); ("submitted_at", "2024-01-15T10:30:00Z")])).

Definition after_t0 : World :=
  mkWorld (snd (T0Submit.POST ∅ None 1%nat p1_submission)) [] ∅ [].

Definition after_batch : World :=
  (Batch.processLowCondition low_env_ok after_t0).2.

(** A high-condition row that has been through generation, one replacement
    and approval, and a second T0 submission for its identifier. *)
Definition high_approved : Participant :=
  {| study_id_t0 := Some "study456"; session_id_t0 := Some "sess789";
     condition := Some "high";
     t0_completed_at := Some 1%nat; t1_completed_at := None;
     audio_status := Some "generated"; audio_path := Some "P7.mp3";
     audio_error := None; audio_generated_at := Some 2%nat;
     qc_status := "approved"; qc_checked_at := Some 3%nat;
     qc_notes := Some "sounds fine"; qc_replaced_count := 1 |}.

Definition resubmission : option T0Submit.Request :=
  Some (T0Submit.mkRequest (Some "P7") (Some "study457") (Some "sess800")
          (Some [("first_name", "Ada"); ("submitted_at", "2024-01-15T10:30:00Z")])).

(** The handler has four ways to end: rejected before any write; insert
    refused; response inserted but update refused; response inserted and the
    matching row, if any, stamped. *)
Inductive T1Run (w : World) (env : T1Submit.Env) (timestamp : Timestamp)
  : Reply * World * list T1Submit.Write -> Prop :=
| T1Rejected http msg :
    T1Run w env timestamp (ReplyFailure http msg, w, [])
| T1InsertRefused e :
    T1Submit.insert_fault env = Some e ->
    T1Run w env timestamp (ReplyFailure 500 (message e), w, [])
| T1UpdateRefused row e :
    T1Submit.insert_fault env = None ->
    T1Submit.update_fault env = Some e ->
    T1Run w env timestamp
      (ReplyFailure 500 (message e),
       mkWorld (participants w) (responses_t1 w ++ [row]) (storage w) (tts_requests w),
       [T1Submit.InsertedResponse row])
| T1Stamped row :
    T1Submit.insert_fault env = None ->
    T1Submit.update_fault env = None ->
    T1Run w env timestamp
      (ReplyOk,
       mkWorld (alter (T1Submit.stamp_t1 timestamp) (resp_prolific_pid row) (participants w))
               (responses_t1 w ++ [row]) (storage w) (tts_requests w),
       match participants w !! resp_prolific_pid row with
       | Some _ => [T1Submit.InsertedResponse row;
                    T1Submit.StampedCompletion (resp_prolific_pid row) timestamp]
       | None => [T1Submit.InsertedResponse row]
       end).

(** A T1 submission for [P1]. *)
Definition p1_answers : gmap string Z := {[ "rel1" := 4; "rel2" := 7 ]}.

Definition t1_body : Thrown + T1Submit.Request :=
  inr (T1Submit.mkRequest (Some "P1") (Some (SurveyPayload p1_answers 5%nat))).

Definition world_p1 : World := mkWorld {[ "P1" := low_generated ]} [] ∅ [].

(** A replace-audio form with its three fields. *)
Definition valid_form (pid : string) (file : Buffer) (notes : option string)
  : QC.ReplaceForm := QC.mkReplaceForm (Some pid) (Some file) notes.

(** A row whose audio has been replaced three times, and a fourth upload. *)
Definition replaced_thrice : Participant :=
  {| study_id_t0 := Some "study456"; session_id_t0 := Some "sess789";
     condition := Some "high";
     t0_completed_at := Some 1%nat; t1_completed_at := None;
     audio_status := Some "generated"; audio_path := Some "P7.mp3";
     audio_error := None; audio_generated_at := Some 7%nat;
     qc_status := "needs_fix"; qc_checked_at := Some 8%nat;
     qc_notes := Some "clipping at the end"; qc_replaced_count := 3 |}.

Definition world_p7 : World :=
  mkWorld {[ "P7" := replaced_thrice ]} [] {[ "P7.mp3" := [Byte.x01] ]} [].

Definition new_take : QC.ReplaceForm :=
  valid_form "P7" [Byte.x02; Byte.x03] (Some "re-recorded").

(** The run creates the artifact: the provider returns audio and the upload
    is accepted. *)
Definition artifact_created (env : Batch.LowEnv) : Prop :=
  (exists audio, Batch.low_tts env Batch.TEXTS_low = Batch.TtsAudio audio)
  /\ Batch.low_upload_fault env = None.

(** A successful run: the artifact is found or created, and the bulk update
    is accepted. *)
Definition low_run_succeeds (env : Batch.LowEnv) (w : World) : Prop :=
  (Batch.lowFileExists (Batch.storage_list (storage w) (Batch.list_fault env) "low.mp3") = true
   \/ artifact_created env)
  /\ Batch.low_update_fault env = None.

(** The artifact is not found and cannot be created. *)
Definition artifact_creation_fails (env : Batch.LowEnv) (w : World) : Prop :=
  Batch.lowFileExists (Batch.storage_list (storage w) (Batch.list_fault env) "low.mp3") = false
  /\ ~ artifact_created env.

(** Two pending low rows next to a high row. *)
Definition world_two_low : World :=
  mkWorld {[ "P1" := low_pending; "P2" := low_pending; "P7" := high_generated_unreviewed ]}
          [] ∅ [].

(** What one iteration of the loop decides, from the answers of the provider
    and of the bucket alone: the counter it bumps and the fields it sends to
    the database. *)
Definition iteration (renv : Batch.RecordEnv) (pid : string) (cond : option string)
    : bool * (Participant -> Participant) :=
  let text := if is_str cond "medium" then Batch.TEXTS_medium else Batch.TEXTS_high in
  match Batch.tts renv text with
  | Batch.TtsHttpError status errorText =>
      (false,
       Batch.mark_error
         (String.substring 0 500
            ("ElevenLabs API error: " +:+ pretty status +:+ " - " +:+ errorText)))
  | Batch.TtsAudio _ =>
      match Batch.upload_fault renv with
      | Some m =>
          (false, Batch.mark_error (String.substring 0 500 ("Supabase upload error: " +:+ m)))
      | None => (true, Batch.mark_generated (pid +:+ ".mp3") (Batch.now renv))
      end
  end.

(** The fields reach the row unless the database refuses the update. *)
Definition row_update (renv : Batch.RecordEnv) (pid : string) (cond : option string)
    (p : Participant) : Participant :=
  match Batch.status_update_fault renv with
  | Some _ => p
  | None => snd (iteration renv pid cond) p
  end.

(** The rows the run processes: none when the fetch fails. *)
Definition processed (env : Batch.Env) (db : gmap string Participant)
    : list (string * Participant) :=
  match Batch.fetch_fault env with
  | Some _ => []
  | None =>
      take Batch.BATCH_SIZE
        (List.filter (fun kp => Batch.is_medium_high_pending (snd kp)) (Batch.row_order env db))
  end.

(** The row is generated, at the path derived from its identifier. *)
Definition ends_generated (renv : Batch.RecordEnv) (pid : string) (p' : Participant) : Prop :=
  audio_status p' = Some "generated"
  /\ audio_path p' = Some (pid +:+ ".mp3")
  /\ audio_error p' = None
  /\ audio_generated_at p' = Some (Batch.now renv).

(** The row is in error: its message is the first 500 characters of the
    non-empty message that was caught, so it is non-empty and no longer than
    500; the path and the generation time are those it had. *)
Definition ends_error (p p' : Participant) : Prop :=
  audio_status p' = Some "error"
  /\ (exists errorMsg, errorMsg <> ""
        /\ audio_error p' = Some (String.substring 0 500 errorMsg)
        /\ String.substring 0 500 errorMsg <> ""
        /\ (String.length (String.substring 0 500 errorMsg) <= 500)%nat)
  /\ audio_path p' = audio_path p
  /\ audio_generated_at p' = audio_generated_at p.

(** Pending rows of the medium and high conditions next to a low row. *)
Definition medium_pending : Participant :=
  {| study_id_t0 := Some "study456"; session_id_t0 := Some "sess789";
     condition := Some "medium";
     t0_completed_at := Some 1%nat; t1_completed_at := None;
     audio_status := Some "pending"; audio_path := None;
     audio_error := None; audio_generated_at := None;
     qc_status := "pending"; qc_checked_at := None; qc_notes := None;
     qc_replaced_count := 0 |}.

Definition high_pending : Participant :=
  {| study_id_t0 := Some "study456"; session_id_t0 := Some "sess790";
     condition := Some "high";
     t0_completed_at := Some 1%nat; t1_completed_at := None;
     audio_status := Some "pending"; audio_path := None;
     audio_error := None; audio_generated_at := None;
     qc_status := "pending"; qc_checked_at := None; qc_notes := None;
     qc_replaced_count := 0 |}.

Definition world_medium_high : World :=
  mkWorld {[ "P1" := low_pending; "P2" := medium_pending; "P3" := high_pending ]} [] ∅ [].

(** The provider refuses the request made for [P3], the first row fetched,
    and serves the others. *)
Definition env_p3_refused : Batch.Env :=
  Batch.mkEnv None map_to_list
    (fun pid => if String.eqb pid "P3"
                then Batch.mkRecordEnv provider_down None None 4%nat
                else Batch.mkRecordEnv provider_up None None 4%nat).

(** Everything is served, but the database refuses the status updates. *)
Definition env_updates_refused : Batch.Env :=
  Batch.mkEnv None map_to_list
    (fun pid => Batch.mkRecordEnv provider_up None
                  (Some (mkPgError "503" "upstream unavailable")) 4%nat).

(** The playback events that open the gate: the end of playback, or a time
    update at a playback time of at least 2. *)
Definition opens_gate (ev : T1Page.Event) : Prop :=
  ev = T1Page.Ended \/ exists t, ev = T1Page.TimeUpdate t /\ (2 <= t)%Q.

(** The steps that come after the audio step. *)
Definition past_audio (s : T1Page.Step) : Prop :=
  s = T1Page.survey \/ s = T1Page.submitting \/ s = T1Page.complete.

(** A body the page accepts: status ['ready'] with a URL. *)
Definition ready_body : GetAudio.Body :=
  GetAudio.mkBody true (Some true) (Some "ready") (Some "https://storage/sign/ads-audio/low.mp3")
    None (Some "P1") (Some "low") (Some "low.mp3") None (Some 2%nat).

(** A visit in which the participant plays the first two and a half seconds. *)
Definition listened : list T1Page.Event :=
  [T1Page.Mounted (Some "P1") (Some ready_body);
   T1Page.TimeUpdate (1 # 2); T1Page.TimeUpdate (5 # 2)].

(** The participant then seeks back to the start and plays again. *)
Definition replayed : list T1Page.Event :=
  [T1Page.TimeUpdate 0; T1Page.TimeUpdate (1 # 4)].

(** Every active item of the scale has an answer, an integer from 1 to 7. *)
Definition all_answered (st : T1Page.State) (scale : T1Page.Scale) : Prop :=
  forall item, item ∈ T1Page.items scale -> T1Page.active item = true ->
    exists v, T1Page.answers st !! T1Page.item_id item = Some v /\ 1 <= v <= 7.

(** No item of the scale has an answer. *)
Definition none_answered (st : T1Page.State) (scale : T1Page.Scale) : Prop :=
  forall item, item ∈ T1Page.items scale -> T1Page.answers st !! T1Page.item_id item = None.

(** The participant listens, continues to the first scale and answers its
    ten items. *)
(** The participant listens, continues to the first scale and answers its
    ten items, changing one answer. *)
Definition on_first_scale : list T1Page.Event := listened ++ [T1Page.ClickContinue].

Definition first_scale_answered : list T1Page.Event :=
  on_first_scale ++
  [T1Page.RadioChange "rel1" 4; T1Page.RadioChange "rel2" 7; T1Page.RadioChange "rel3" 1;
   T1Page.RadioChange "rel4" 2; T1Page.RadioChange "rel5" 5; T1Page.RadioChange "rel6" 6;
   T1Page.RadioChange "rel7" 3; T1Page.RadioChange "rel8" 4; T1Page.RadioChange "rel9" 4;
   T1Page.RadioChange "rel10" 7; T1Page.RadioChange "rel1" 5].

Definition relevance : T1Page.Scale :=
  T1Page.mkScale "relevance" "Perceived Ad Relevance" T1Page.likert
    [ T1Page.mkItem "rel1" true; T1Page.mkItem "rel2" true; T1Page.mkItem "rel3" true;
      T1Page.mkItem "rel4" true; T1Page.mkItem "rel5" true; T1Page.mkItem "rel6" true;
      T1Page.mkItem "rel7" true; T1Page.mkItem "rel8" true; T1Page.mkItem "rel9" true;
      T1Page.mkItem "rel10" true ].

(** * Further routes and pages *)

(** ** GET /api/admin/qc/list *)

Module QCList.

(** Outcomes of the collaborator calls: the select, the order in which the
    database returns the rows (it is asked for [audio_generated_at]
    descending), and [createSignedUrl(path, 600)]. *)
Record Env := mkEnv {
  select_fault : option PgError;
  row_order : gmap string Participant -> list (string * Participant);
  sign : string -> option string
}.

(** [.eq('condition', 'high').eq('audio_status', 'generated')
     .in('qc_status', ['pending', 'needs_fix'])] *)
Definition needs_review (p : Participant) : bool :=
  is_str (condition p) "high" && is_str (audio_status p) "generated"
  && (String.eqb (qc_status p) "pending" || String.eqb (qc_status p) "needs_fix").

(** The URL of one entry: [null] without a path or when signing fails. *)
Definition entry_url (env : Env) (p : Participant) : option string :=
  if truthy (audio_path p) then
    match audio_path p with
    | Some path => sign env path
    | None => None
    end
  else None.

(** A listed participant, [{ ...p, audio_url }]: the nine columns of the
    select and the signed URL of the audio. *)
Record Entry := mkEntry {
  prolific_pid : string;
  condition : option string;
  audio_status : option string;
  audio_path : option string;
  audio_generated_at : option Timestamp;
  qc_status : string;
  qc_checked_at : option Timestamp;
  qc_notes : option string;
  qc_replaced_count : Z;
  audio_url : option string
}.

Definition annotate (env : Env) (kp : string * Participant) : Entry :=
  let 'mkParticipant _ _ condition _ _ audio_status audio_path _ audio_generated_at
         qc_status qc_checked_at qc_notes qc_replaced_count := snd kp in
  mkEntry (fst kp) condition audio_status audio_path audio_generated_at
    qc_status qc_checked_at qc_notes qc_replaced_count (entry_url env (snd kp)).

Inductive Response :=
| Listed (entries : list Entry)
| Failed (http : nat) (error : string).

Definition GET (db : gmap string Participant) (env : Env) : Response :=
  match select_fault env with
  | Some e => Failed 500 (message e)
  | None =>
      Listed (map (annotate env)
                (List.filter (fun kp => needs_review (snd kp)) (row_order env db)))
  end.

End QCList.

(** ** The middleware of the admin area *)

Module Middleware.

Inductive Result :=
| Next
| Rejected (http : nat) (body : string)
| Raised.

(** The characters [' '] and [':']. *)
Definition space : Ascii.ascii := Eval cbv in Ascii.ascii_of_nat 32.
Definition colon : Ascii.ascii := Eval cbv in Ascii.ascii_of_nat 58.

(** [s.split(sep)] for a one-character separator. *)
Fixpoint split (sep : Ascii.ascii) (s : string) : list string :=
  match s with
  | EmptyString => [EmptyString]
  | String c rest =>
      if Ascii.eqb c sep then EmptyString :: split sep rest
      else
        match split sep rest with
        | [] => [String c EmptyString]
        | part :: parts => String c part :: parts
        end
  end.

Section Runtime.

(** [atob] of the runtime: the decoded string, or [None] when it throws. *)
Variable atob : string -> option string.

(** [middleware(request)]: the path of the URL, the [authorization] header
    and the environment variable [ADMIN_PASSWORD]. *)
Definition middleware (pathname : string) (authorization : option string)
    (ADMIN_PASSWORD : option string) : Result :=
  if negb (String.prefix "/admin" pathname) then Next
  else
    match authorization with
    | None => Rejected 401 "Authentication required"
    | Some authHeader =>
        if negb (truthy authorization) || negb (String.prefix "Basic " authHeader) then
          Rejected 401 "Authentication required"
        else
          match split space authHeader !! 1%nat with
          | None => Raised
          | Some base64Credentials =>
              match atob base64Credentials with
              | None => Raised
              | Some credentials =>
                  let parts := split colon credentials in
                  let username := parts !! 0%nat in
                  let password := parts !! 1%nat in
                  match ADMIN_PASSWORD with
                  | None => Rejected 500 "Server configuration error"
                  | Some adminPassword =>
                      if negb (truthy ADMIN_PASSWORD) then
                        Rejected 500 "Server configuration error"
                      else if negb (bool_decide (username = Some "admin"))
                              || negb (bool_decide (password = Some adminPassword)) then
                        Rejected 401 "Invalid credentials"
                      else Next
                  end
              end
          end
    end.

End Runtime.

End Middleware.

(** ** The T0 page *)

Module T0Page.

(** What the page shows after a submission. *)
Inductive SubmitResult :=
| Success
| ErrorResult (error : string)
| NetworkError.

(** The body [handleSubmit] posts: the three URL parameters, each replaced by
    ['NOT_PROVIDED'] when absent or empty, and the form. *)
Definition body (PROLIFIC_PID STUDY_ID SESSION_ID : option string)
    (firstName submitted_at : string) : T0Submit.Request :=
  T0Submit.mkRequest
    (Some (str_or PROLIFIC_PID "NOT_PROVIDED"))
    (Some (str_or STUDY_ID "NOT_PROVIDED"))
    (Some (str_or SESSION_ID "NOT_PROVIDED"))
    (Some [("first_name", firstName); ("submitted_at", submitted_at)]).

(** The [error] key of the JSON answer of the handler. *)
Definition error_key (r : T0Submit.Response) : option string :=
  match r with
  | T0Submit.Saved _ _ => None
  | T0Submit.BadRequest e => Some e
  | T0Submit.ServerError e _ => Some e
  end.

(** [response.ok] *)
Definition response_ok (r : T0Submit.Response) : bool :=
  (200 <=? T0Submit.http_status r)%nat && (T0Submit.http_status r <=? 299)%nat.

(** The rest of [handleSubmit] once the request has settled; [None] when
    [fetch] or [json()] threw. *)
Definition submitResult (fetched : option T0Submit.Response) : SubmitResult :=
  match fetched with
  | None => NetworkError
  | Some r => if response_ok r then Success else ErrorResult (str_or (error_key r) "Unknown error")
  end.

(** A submission of the form against the handler. *)
Definition handleSubmit (db : gmap string Participant) (upsert_fault : option PgError)
    (now : Timestamp) (PROLIFIC_PID STUDY_ID SESSION_ID : option string)
    (firstName submitted_at : string) : SubmitResult * gmap string Participant :=
  let out := T0Submit.POST db upsert_fault now
               (Some (body PROLIFIC_PID STUDY_ID SESSION_ID firstName submitted_at)) in
  (submitResult (Some (fst out)), snd out).

End T0Page.

(** ** The T1 page against POST /api/t1/submit *)

(** [handleSubmit] of the T1 page in the submitting step: the request is sent
    to the handler and the page settles on its reply. *)
Definition submit_round (scales : list T1Page.Scale) (w : World) (env : T1Submit.Env)
    (timestamp completed_at : Timestamp) (prolificPid : option string)
    (st : T1Page.State) : T1Page.State * World :=
  let out := T1Submit.POST w env timestamp
               (inr (T1Page.submit_body prolificPid completed_at st)) in
  (T1Page.dispatch scales st (T1Page.SubmitSettled (Some out.1.1)), out.1.2).

(** * Predicates and scenarios of the further properties *)

(** The rows come back newest first, rows without a generation time before
    the others. *)
Definition newer_or_equal (a b : option Timestamp) : Prop :=
  match a, b with
  | None, _ => True
  | Some _, None => False
  | Some x, Some y => (y <= x)%nat
  end.

(** The database answers a scan with the rows of the table, each once. *)
Definition scans_table (order : gmap string Participant -> list (string * Participant)) : Prop :=
  forall db, order db ≡ₚ map_to_list db.

(** The text synthesized for a row of the medium/high branch. *)
Definition text_for (cond : option string) : string :=
  if is_str cond "medium" then Batch.TEXTS_medium else Batch.TEXTS_high.

(** The audio an iteration stores: the provider's answer when both the
    synthesis and the upload succeed. *)
Definition uploaded (renv : Batch.RecordEnv) (cond : option string) : option Buffer :=
  match Batch.tts renv (text_for cond) with
  | Batch.TtsAudio audio =>
      match Batch.upload_fault renv with
      | None => Some audio
      | Some _ => None
      end
  | Batch.TtsHttpError _ _ => None
  end.

(** The string has no occurrence of the character. *)
Fixpoint lacks (c : Ascii.ascii) (s : string) : Prop :=
  match s with
  | EmptyString => True
  | String d rest => d <> c /\ lacks c rest
  end.

(** Only the audio fields of a row differ. *)
Definition same_but_audio (p p' : Participant) : Prop :=
  study_id_t0 p' = study_id_t0 p /\ session_id_t0 p' = session_id_t0 p
  /\ condition p' = condition p /\ t0_completed_at p' = t0_completed_at p
  /\ t1_completed_at p' = t1_completed_at p /\ qc_status p' = qc_status p
  /\ qc_checked_at p' = qc_checked_at p /\ qc_notes p' = qc_notes p
  /\ qc_replaced_count p' = qc_replaced_count p.

(** Only the three review fields of a row differ. *)
Definition same_but_review (p p' : Participant) : Prop :=
  study_id_t0 p' = study_id_t0 p /\ session_id_t0 p' = session_id_t0 p
  /\ condition p' = condition p /\ t0_completed_at p' = t0_completed_at p
  /\ t1_completed_at p' = t1_completed_at p /\ audio_status p' = audio_status p
  /\ audio_path p' = audio_path p /\ audio_error p' = audio_error p
  /\ audio_generated_at p' = audio_generated_at p
  /\ qc_replaced_count p' = qc_replaced_count p.

(** Every active item of every active scale has an answer from 1 to 7. *)
Definition questionnaire_answered (scales : list T1Page.Scale) (st : T1Page.State) : Prop :=
  forall scale, scale ∈ T1Page.activeScales scales -> all_answered st scale.

(** Every active item of the scale has an answer. *)
Definition scale_answered (st : T1Page.State) (scale : T1Page.Scale) : Prop :=
  forall item, item ∈ T1Page.items scale -> T1Page.active item = true ->
    is_Some (T1Page.answers st !! T1Page.item_id item).

(** What holds in every state the page reaches: recorded answers are between
    1 and 7; the index is within the active scales; it is 0 before the survey;
    on a survey step the scales before the current one are answered; in the
    submitting and complete steps all active scales are. *)
Definition page_invariant (scales : list T1Page.Scale) (st : T1Page.State) : Prop :=
  (forall id v, T1Page.answers st !! id = Some v -> 1 <= v <= 7)
  /\ (T1Page.currentScaleIndex st <= length (T1Page.activeScales scales) - 1)%nat
  /\ (T1Page.step st = T1Page.loading \/ T1Page.step st = T1Page.audio ->
      T1Page.currentScaleIndex st = 0%nat)
  /\ (T1Page.step st = T1Page.survey ->
      forall j scale, (j < T1Page.currentScaleIndex st)%nat ->
        T1Page.activeScales scales !! j = Some scale -> scale_answered st scale)
  /\ (T1Page.step st = T1Page.submitting \/ T1Page.step st = T1Page.complete ->
      forall scale, scale ∈ T1Page.activeScales scales -> scale_answered st scale).

(** A whole visit: the participant listens, then answers every item of the
    five scales and continues after each scale. *)
Definition full_visit : list T1Page.Event :=
  on_first_scale ++
  [ T1Page.RadioChange "rel1" 2;
    T1Page.RadioChange "rel2" 3;
    T1Page.RadioChange "rel3" 4;
    T1Page.RadioChange "rel4" 5;
    T1Page.RadioChange "rel5" 6;
    T1Page.RadioChange "rel6" 7;
    T1Page.RadioChange "rel7" 1;
    T1Page.RadioChange "rel8" 2;
    T1Page.RadioChange "rel9" 3;
    T1Page.RadioChange "rel10" 4;
    T1Page.ClickContinue;
    T1Page.RadioChange "int1" 5;
    T1Page.RadioChange "int2" 6;
    T1Page.RadioChange "int3" 7;
    T1Page.RadioChange "int4" 1;
    T1Page.RadioChange "int5" 2;
    T1Page.RadioChange "int6" 3;
    T1Page.RadioChange "int7" 4;
    T1Page.ClickContinue;
    T1Page.RadioChange "att1" 5;
    T1Page.RadioChange "att2" 6;
    T1Page.RadioChange "att3" 7;
    T1Page.RadioChange "att4" 1;
    T1Page.ClickContinue;
    T1Page.RadioChange "pi1" 2;
    T1Page.RadioChange "pi2" 3;
    T1Page.RadioChange "pi3" 4;
    T1Page.ClickContinue;
    T1Page.RadioChange "priv1" 5;
    T1Page.RadioChange "priv2" 6;
    T1Page.RadioChange "priv3" 7;
    T1Page.RadioChange "priv4" 1;
    T1Page.ClickContinue ].

(** The page after a whole visit, about to post its answers. *)
Definition ready_to_submit : T1Page.State :=
  T1Page.run T1Page.T1_ITEMS full_visit T1Page.initial.

(** A list of generation times ordered newest first. *)
Fixpoint newest_first (l : list (option Timestamp)) : Prop :=
  match l with
  | [] => True
  | x :: rest => Forall (newer_or_equal x) rest /\ newest_first rest
  end.

(** The dashboard's database: every scan is answered with the rows of the
    table, and every path can be signed. *)
Definition dashboard_env : QCList.Env :=
  QCList.mkEnv None map_to_list (fun path => Some ("https://storage/sign/ads-audio/" +:+ path)).

(** A table with one high row under review, one approved and one low row. *)
Definition qc_table : gmap string Participant :=
  {[ "P1" := low_generated; "P7" := high_generated_unreviewed; "P8" := high_approved ]}.

(** The iteration stores audio: synthesis and upload both succeed. *)
Definition stores (renv : Batch.RecordEnv) (cond : option string) : bool :=
  match uploaded renv cond with
  | Some _ => true
  | None => false
  end.

(** * Verification *)

(** ** Strings *)

Lemma truthy_Some (s : option string) :
  truthy s = true <-> exists v, s = Some v /\ v <> "".
Proof.
  destruct s as [v|]; simpl.
  - rewrite negb_true_iff. split.
    + intros H. exists v. split; [reflexivity|]. by apply String.eqb_neq.
    + intros (v' & [= <-] & Hne). by apply String.eqb_neq.
  - split; [discriminate|]. by intros (v & ? & _).
Qed.

Lemma is_str_true (s : option string) (lit : string) :
  is_str s lit = true <-> s = Some lit.
Proof.
  destruct s as [v|]; simpl.
  - rewrite String.eqb_eq. split; congruence.
  - split; discriminate.
Qed.

Lemma append_cons (c : Ascii.ascii) (s t : string) :
  String c s +:+ t = String c (s +:+ t).
Proof. reflexivity. Qed.

Lemma append_length (s t : string) :
  String.length (s +:+ t) = (String.length s + String.length t)%nat.
Proof.
  induction s as [|c s IH]; [reflexivity|].
  rewrite append_cons. simpl. by rewrite IH.
Qed.

(** Appending a suffix is injective: distinct identifiers give distinct
    paths. *)
Lemma append_inj_l (suffix s t : string) :
  s +:+ suffix = t +:+ suffix -> s = t.
Proof.
  revert t. induction s as [|c s IH]; intros [|d t] H.
  - reflexivity.
  - apply (f_equal String.length) in H. rewrite !append_length in H.
    simpl in H. lia.
  - apply (f_equal String.length) in H. rewrite !append_length in H.
    simpl in H. lia.
  - rewrite !append_cons in H. injection H as -> H. f_equal. by apply IH.
Qed.

(** [slice(0, n)] keeps at most [n] characters and keeps a string non-empty. *)
Lemma substring_0_length (n : nat) (s : string) :
  (String.length (String.substring 0 n s) <= n)%nat.
Proof.
  revert s. induction n as [|n IH]; intros [|c s]; simpl; try lia.
  specialize (IH s). lia.
Qed.

Lemma substring_0_nonempty (n : nat) (s : string) :
  s <> "" -> String.substring 0 (S n) s <> "".
Proof. destruct s as [|c s]; simpl; [congruence | discriminate]. Qed.

(** ** GET /api/t1/get-audio *)

(** When the handler attaches a signed URL: the condition and the QC status
    of the row are not consulted. *)
Lemma signed_url_Some (env : GetAudio.Env) (p : Participant) (url : string) :
  GetAudio.signed_url env p = Some url <->
  audio_status p = Some "generated" /\
  exists path, audio_path p = Some path /\ path <> "" /\ GetAudio.sign env path = Some url.
Proof.
  unfold GetAudio.signed_url.
  destruct (is_str (audio_status p) "generated") eqn:Hs; simpl.
  - apply is_str_true in Hs.
    destruct (audio_path p) as [path|] eqn:Hp; simpl.
    + destruct (String.eqb_spec path "") as [->|Hne]; simpl.
      * split; [discriminate|]. intros (_ & path & [= <-] & Hne & _). congruence.
      * split; [intros H; split; [done|]; by exists path|].
        by intros (_ & path' & [= <-] & _ & H).
    + split; [discriminate|]. by intros (_ & path & ? & _).
  - split; [discriminate|]. intros (H & _). apply is_str_true in H. congruence.
Qed.

Lemma GET_found (db : gmap string Participant) (env : GetAudio.Env)
    (pid : string) (p : Participant) :
  pid <> "" -> GetAudio.select_fault env = None -> db !! pid = Some p ->
  GetAudio.GET db env (Some pid) =
    (200%nat,
     GetAudio.mkBody true (Some true) (audio_status p) (GetAudio.signed_url env p)
       None (Some pid) (condition p) (audio_path p) (audio_error p)
       (audio_generated_at p)).
Proof.
  intros Hne Hf Hp. unfold GetAudio.GET, select_single. simpl.
  apply String.eqb_neq in Hne. rewrite Hne, Hf, Hp. reflexivity.
Qed.

(** A generated row gets its signed URL whatever its condition and QC status. *)
Lemma GET_serves_generated (db : gmap string Participant) (env : GetAudio.Env)
    (pid path url : string) (p : Participant) :
  pid <> "" -> GetAudio.select_fault env = None -> db !! pid = Some p ->
  audio_status p = Some "generated" -> audio_path p = Some path -> path <> "" ->
  GetAudio.sign env path = Some url ->
  GetAudio.audio_url (snd (GetAudio.GET db env (Some pid))) = Some url
  /\ GetAudio.status (snd (GetAudio.GET db env (Some pid))) = Some "generated".
Proof.
  intros Hne Hf Hp Hs Hpath Hpne Hsign.
  rewrite (GET_found db env pid p Hne Hf Hp). simpl. split; [|done].
  apply signed_url_Some. split; [done|]. by exists path.
Qed.

(** The status key of a response is the row's [audio_status] or
    ['not_found']; it is never derived from the QC status. *)
Lemma GET_status (db : gmap string Participant) (env : GetAudio.Env)
    (prolificPid : option string) :
  let body := snd (GetAudio.GET db env prolificPid) in
  GetAudio.ok body = false
  \/ (GetAudio.found body = Some false /\ GetAudio.status body = Some "not_found")
  \/ exists pid p, prolificPid = Some pid /\ db !! pid = Some p
       /\ GetAudio.found body = Some true
       /\ GetAudio.status body = audio_status p
       /\ GetAudio.audio_url body = GetAudio.signed_url env p.
Proof.
  unfold GetAudio.GET, select_single.
  destruct prolificPid as [pid|]; simpl; [|by left].
  destruct (String.eqb pid ""); simpl; [by left|].
  destruct (GetAudio.select_fault env) as [e|].
  - destruct (String.eqb (code e) "PGRST116"); simpl; [right; by left | by left].
  - destruct (db !! pid) as [p|] eqn:Hp; simpl.
    + right; right. by exists pid, p.
    + right; by left.
Qed.

(** C1 (the code departs from the claim): for a high-condition row with
    [audio_status = generated] and [qc_status = pending] the read endpoint
    answers with status ['generated'] and a signed URL attached, exactly as it
    does once the row has been approved; the claim has it reported as not
    servable until Approve. *)
Theorem get_audio_serves_unreviewed_high :
  let db : gmap string Participant := {[ "P7" := high_generated_unreviewed ]} in
  let before := snd (GetAudio.GET db signing_env (Some "P7")) in
  let approved := snd (QC.approve_POST db None 3%nat (inr (QC.mkRequest (Some "P7") None))) in
  let after := snd (GetAudio.GET approved signing_env (Some "P7")) in
  GetAudio.status before = Some "generated"
  /\ GetAudio.audio_url before = Some "https://storage/sign/ads-audio/P7.mp3"
  /\ (qc_status <$> approved !! "P7") = Some "approved"
  /\ after = before.
Proof. vm_compute. repeat split; reflexivity. Qed.

(** ** The T1 page on mount *)

(** The page reaches the audio step only on a body with status ['ready'] and
    a truthy URL; every other body sends it to the error step. *)
Lemma fetchAudio_step (prolificPid : option string) (fetched : option GetAudio.Body)
    (st : T1Page.State) :
  T1Page.step (T1Page.fetchAudio prolificPid fetched st) = T1Page.error
  \/ exists data, fetched = Some data
       /\ GetAudio.status data = Some "ready"
       /\ truthy (GetAudio.audio_url data) = true
       /\ T1Page.step (T1Page.fetchAudio prolificPid fetched st) = T1Page.audio
       /\ T1Page.audioUrl (T1Page.fetchAudio prolificPid fetched st) = GetAudio.audio_url data.
Proof.
  unfold T1Page.fetchAudio.
  destruct (truthy prolificPid); simpl; [|by left].
  destruct fetched as [data|]; [|by left].
  destruct (GetAudio.ok data); simpl; [|by left].
  case_bool_decide; [by left|].
  destruct (is_str (GetAudio.status data) "pending"); [by left|].
  destruct (is_str (GetAudio.status data) "qc_pending"); [by left|].
  destruct (is_str (GetAudio.status data) "ready") eqn:Hready; simpl; [|by left].
  destruct (truthy (GetAudio.audio_url data)) eqn:Hurl; simpl; [|by left].
  right. exists data. apply is_str_true in Hready. done.
Qed.

(** Against the read endpoint of the repository the page never reaches the
    audio step: the endpoint answers with the row's [audio_status], which is
    ['generated'] whenever a URL is attached, and the page asks for
    ['ready']. *)
Lemma load_never_audio (scales : list T1Page.Scale) (db : gmap string Participant)
    (env : GetAudio.Env) (prolificPid : option string) :
  T1Page.step (T1Page.load scales db env prolificPid) = T1Page.error.
Proof.
  unfold T1Page.load, T1Page.dispatch. simpl.
  destruct (fetchAudio_step prolificPid
              (Some (snd (GetAudio.GET db env prolificPid))) T1Page.initial)
    as [H | (data & [= <-] & Hready & Hurl & _)]; [exact H|].
  exfalso.
  destruct (GET_status db env prolificPid) as [Hok | [[_ Hs] | (pid & p & _ & _ & _ & Hs & Hu)]].
  - unfold GetAudio.GET in Hready, Hok.
    repeat case_match; simpl in *; congruence.
  - congruence.
  - rewrite Hu in Hurl. apply truthy_Some in Hurl as (url & Hurl & _).
    apply signed_url_Some in Hurl as [Hgen _]. congruence.
Qed.

(** C2 (the code departs from the claim): after T0 and a batch run the row
    of [P1] has condition low, audio status generated and path [low.mp3]; the
    endpoint attaches the signed URL of [low.mp3] under status ['generated'],
    and the page, which accepts only status ['ready'], goes from loading to
    the error state ("Your audio is not available.") with no URL, not to the
    audio state. *)
Theorem t1_page_rejects_generated_low :
  let db := participants after_batch in
  let body := snd (GetAudio.GET db signing_env (Some "P1")) in
  let page := T1Page.load T1Page.T1_ITEMS db signing_env (Some "P1") in
  db !! "P1" = Some low_generated
  /\ GetAudio.status body = Some "generated"
  /\ GetAudio.audio_url body = Some "https://storage/sign/ads-audio/low.mp3"
  /\ T1Page.step page = T1Page.error
  /\ T1Page.errorMessage page = "Your audio is not available."
  /\ T1Page.audioUrl page = None.
Proof. vm_compute. repeat split; reflexivity. Qed.

(** ** POST /api/t0/submit *)

Lemma T0_POST_Saved (db : gmap string Participant) (fault : option PgError)
    (now : Timestamp) (body : option T0Submit.Request) (pid : string)
    (keys : list string) :
  fst (T0Submit.POST db fault now body) = T0Submit.Saved pid keys ->
  exists b, body = Some b /\ T0Submit.prolific_pid b = Some pid /\ pid <> ""
    /\ fault = None
    /\ snd (T0Submit.POST db fault now body) =
       <[pid := T0Submit.upsert_fields (T0Submit.study_id b) (T0Submit.session_id b) now
                  (default column_defaults (db !! pid))]> db.
Proof.
  unfold T0Submit.POST, T0Submit.upsert.
  destruct body as [b|]; [|discriminate].
  destruct (T0Submit.prolific_pid b) as [pid'|] eqn:Hpid; [|discriminate].
  simpl. destruct (String.eqb_spec pid' "") as [->|Hne]; simpl; [discriminate|].
  destruct (T0Submit.t0_payload b); [|discriminate].
  destruct fault; simpl; [discriminate|].
  intros [= -> _]. exists b. done.
Qed.

Lemma T0_POST_not_Saved (db : gmap string Participant) (fault : option PgError)
    (now : Timestamp) (body : option T0Submit.Request) :
  (forall pid keys, fst (T0Submit.POST db fault now body) <> T0Submit.Saved pid keys) ->
  snd (T0Submit.POST db fault now body) = db.
Proof.
  unfold T0Submit.POST, T0Submit.upsert. intros H.
  repeat case_match; simpl in *; simplify_eq; try reflexivity.
  exfalso. by eapply H.
Qed.

Lemma T0_POST_cases (db : gmap string Participant) (fault : option PgError)
    (now : Timestamp) (body : option T0Submit.Request) :
  snd (T0Submit.POST db fault now body) = db
  \/ exists pid study session,
       snd (T0Submit.POST db fault now body) =
       <[pid := T0Submit.upsert_fields study session now
                  (default column_defaults (db !! pid))]> db.
Proof.
  destruct (fst (T0Submit.POST db fault now body)) eqn:Hr.
  - apply T0_POST_Saved in Hr as (b & _ & _ & _ & _ & ->). right. eauto.
  - left. apply T0_POST_not_Saved. congruence.
  - left. apply T0_POST_not_Saved. congruence.
Qed.

(** C3: the T0 handler writes condition ['low'] and nothing else: every row
    of the table after a submission is a row that was there before or has
    condition ['low'], and after a saved submission the row of the submitted
    identifier has condition ['low'], whatever it held before. *)
Theorem t0_submit_assigns_low (db : gmap string Participant) (fault : option PgError)
    (now : Timestamp) (body : option T0Submit.Request) :
  (forall pid p', snd (T0Submit.POST db fault now body) !! pid = Some p' ->
     db !! pid = Some p' \/ condition p' = Some "low")
  /\ (forall pid keys, fst (T0Submit.POST db fault now body) = T0Submit.Saved pid keys ->
        condition <$> snd (T0Submit.POST db fault now body) !! pid = Some (Some "low")).
Proof.
  split.
  - intros pid p' Hp'.
    destruct (T0_POST_cases db fault now body) as [Heq | (pid0 & study & session & Heq)];
      rewrite Heq in Hp'.
    + by left.
    +  destruct (decide (pid0 = pid)) as [->|Hne].
      * rewrite lookup_insert_eq in Hp'. injection Hp' as <-. by right.
      * rewrite lookup_insert_ne in Hp' by done. by left.
  - intros pid keys Hr.
    apply T0_POST_Saved in Hr as (b & _ & _ & _ & _ & ->).
    by rewrite lookup_insert_eq.
Qed.

(** A row that was high and approved is low after a resubmission. *)
Lemma t0_submit_assigns_low_witness :
  fst (T0Submit.POST {[ "P7" := high_approved ]} None 9%nat resubmission)
    = T0Submit.Saved "P7" ["first_name"; "submitted_at"]
  /\ condition <$> snd (T0Submit.POST {[ "P7" := high_approved ]} None 9%nat resubmission) !! "P7"
     = Some (Some "low").
Proof.
  split; [vm_compute; reflexivity|].
  apply (proj2 (t0_submit_assigns_low {[ "P7" := high_approved ]} None 9%nat resubmission)
           "P7" ["first_name"; "submitted_at"]).
  vm_compute; reflexivity.
Defined.

(** C10: a T0 resubmission for an identifier that has a row leaves the audio
    fields (status, path, error, generated timestamp) and the QC fields
    (status, checked time, notes, replacement count) of that row as they were;
    the T1-completion timestamp is kept too. *)
Theorem t0_resubmit_keeps_audio_and_qc (db : gmap string Participant)
    (fault : option PgError) (now : Timestamp) (body : option T0Submit.Request)
    (pid : string) (p : Participant) :
  db !! pid = Some p ->
  exists p', snd (T0Submit.POST db fault now body) !! pid = Some p'
    /\ audio_status p' = audio_status p
    /\ audio_path p' = audio_path p
    /\ audio_error p' = audio_error p
    /\ audio_generated_at p' = audio_generated_at p
    /\ qc_status p' = qc_status p
    /\ qc_checked_at p' = qc_checked_at p
    /\ qc_notes p' = qc_notes p
    /\ qc_replaced_count p' = qc_replaced_count p
    /\ t1_completed_at p' = t1_completed_at p.
Proof.
  intros Hp.
  destruct (T0_POST_cases db fault now body) as [-> | (pid0 & study & session & ->)].
  - exists p. done.
  - destruct (decide (pid0 = pid)) as [->|Hne].
    + rewrite lookup_insert_eq, Hp. simpl. eexists. split; [reflexivity|]. done.
    + rewrite lookup_insert_ne by done. exists p. done.
Qed.

(** The same resubmission keeps the generated audio and the approval. *)
Lemma t0_resubmit_keeps_audio_and_qc_witness :
  exists p', snd (T0Submit.POST {[ "P7" := high_approved ]} None 9%nat resubmission) !! "P7" = Some p'
    /\ audio_status p' = Some "generated"
    /\ audio_path p' = Some "P7.mp3"
    /\ qc_status p' = "approved"
    /\ qc_replaced_count p' = 1.
Proof.
  destruct (t0_resubmit_keeps_audio_and_qc {[ "P7" := high_approved ]} None 9%nat
              resubmission "P7" high_approved)
    as (p' & Hp' & Hs & Hpath & _ & _ & Hq & _ & _ & Hc & _).
  - vm_compute; reflexivity.
  - exists p'. rewrite Hs, Hpath, Hq, Hc. simpl. done.
Defined.

(** ** POST /api/t1/submit *)

Lemma T1_POST_run (w : World) (env : T1Submit.Env) (timestamp : Timestamp)
    (body : Thrown + T1Submit.Request) :
  T1Run w env timestamp (T1Submit.POST w env timestamp body).
Proof.
  unfold T1Submit.POST, T1Submit.insert_response, update_eq.
  destruct body as [err|b]; [constructor|].
  destruct (T1Submit.prolific_pid b) as [pid|]; [|constructor].
  destruct (negb _); [constructor|].
  destruct (T1Submit.insert_fault env) as [e|] eqn:Hi; [by constructor|].
  destruct (T1Submit.update_fault env) as [e|] eqn:Hu; simpl.
  - by apply T1UpdateRefused.
  - by apply (T1Stamped w env timestamp (mkResponseRow pid _)).
Qed.

(** C7: in every execution of the T1 handler the completion stamp comes after
    the insert of the response.  When the insert is refused the handler
    answers with a failure and writes nothing.  A completion stamp in the
    accepted writes is preceded by the insert of the response of the same
    identifier, and whenever the [t1_completed_at] of a row differs from its
    value before the call, the response of that identifier has been appended
    to [responses_t1]. *)
Theorem t1_submit_stamps_after_insert (w : World) (env : T1Submit.Env)
    (timestamp : Timestamp) (body : Thrown + T1Submit.Request) :
  let '(reply, w', writes) := T1Submit.POST w env timestamp body in
  (forall e, T1Submit.insert_fault env = Some e ->
     reply <> ReplyOk /\ w' = w /\ writes = [])
  /\ (forall pid at_, T1Submit.StampedCompletion pid at_ ∈ writes ->
        exists row, writes = [T1Submit.InsertedResponse row; T1Submit.StampedCompletion pid at_]
          /\ resp_prolific_pid row = pid
          /\ responses_t1 w' = responses_t1 w ++ [row])
  /\ (forall pid, t1_completed_at <$> participants w' !! pid
                  <> t1_completed_at <$> participants w !! pid ->
        exists row, resp_prolific_pid row = pid
          /\ responses_t1 w' = responses_t1 w ++ [row]
          /\ reply = ReplyOk).
Proof.
  destruct (T1_POST_run w env timestamp body) as [http msg|e He|row e Hi Hu|row Hi Hu].
  - split; [|split].
    + done.
    + intros pid at_ H. by apply elem_of_nil in H.
    + intros pid H. congruence.
  - split; [|split].
    + done.
    + intros pid at_ H. by apply elem_of_nil in H.
    + intros pid H. congruence.
  - split; [|split].
    + congruence.
    + intros pid at_ H. apply list_elem_of_singleton in H. discriminate.
    + intros pid H. simpl in H. congruence.
  - split; [|split].
    + congruence.
    + intros pid at_ H. simpl.
      destruct (participants w !! resp_prolific_pid row).
      * apply elem_of_cons in H as [H|H]; [discriminate|].
        apply list_elem_of_singleton in H. injection H as -> ->. by exists row.
      * apply list_elem_of_singleton in H. discriminate.
    + intros pid H. simpl in H. exists row. split; [|done].
      destruct (decide (resp_prolific_pid row = pid)) as [|Hne]; [done|].
      by rewrite lookup_alter_ne in H.
Qed.

(** A refused insert leaves the state as it was; an accepted one records the
    response of [P1]. *)
Lemma t1_submit_stamps_after_insert_witness :
  (T1Submit.POST world_p1 (T1Submit.mkEnv (Some (mkPgError "500" "insert refused")) None)
     6%nat t1_body).1.2 = world_p1
  /\ exists row,
       responses_t1 (T1Submit.POST world_p1 (T1Submit.mkEnv None None) 6%nat t1_body).1.2
       = [row] /\ resp_prolific_pid row = "P1".
Proof.
  split.
  - pose proof (t1_submit_stamps_after_insert world_p1
                  (T1Submit.mkEnv (Some (mkPgError "500" "insert refused")) None)
                  6%nat t1_body) as H.
    destruct (T1Submit.POST _ _ _ _) as [[reply w'] writes].
    destruct H as (H & _ & _).
    by destruct (H _ eq_refl) as (_ & -> & _).
  - pose proof (t1_submit_stamps_after_insert world_p1 (T1Submit.mkEnv None None)
                  6%nat t1_body) as H.
    destruct (T1Submit.POST _ _ _ _) as [[reply w'] writes] eqn:Hrun.
    destruct H as (_ & _ & H).
    destruct (H "P1") as (row & Hrow & Hresp & _).
    + assert (w' = (T1Submit.POST world_p1 (T1Submit.mkEnv None None) 6%nat t1_body).1.2)
        as -> by (by rewrite Hrun).
      vm_compute. discriminate.
    + exists row. simpl. by rewrite Hresp.
Defined.

(** ** POST /api/admin/qc/replace-audio *)

(** A call that answers [{ ok: true }] has uploaded the file and applied the
    update with the count the handler computed. *)
Lemma replace_audio_ok (w : World) (env : QC.ReplaceEnv) (t_gen t_qc : Timestamp)
    (form : QC.ReplaceForm) :
  fst (QC.replace_audio_POST w env t_gen t_qc form) = ReplyOk ->
  exists pid file,
    QC.f_prolific_pid form = Some pid /\ pid <> "" /\ QC.f_file form = Some file
    /\ QC.upload_fault env = None /\ QC.update_fault env = None
    /\ storage (snd (QC.replace_audio_POST w env t_gen t_qc form))
       = <[pid +:+ ".mp3" := file]> (storage w)
    /\ participants (snd (QC.replace_audio_POST w env t_gen t_qc form))
       = alter (QC.replaced (pid +:+ ".mp3") t_gen t_qc (QC.f_qc_notes form)
                  (QC.currentCount (participants w) (QC.read_fault env) pid))
               pid (participants w).
Proof.
  unfold QC.replace_audio_POST, storage_upload, update_eq.
  destruct (QC.f_prolific_pid form) as [pid|]; [|discriminate].
  simpl. destruct (String.eqb_spec pid "") as [->|Hne]; simpl; [discriminate|].
  destruct (QC.f_file form) as [file|]; [|discriminate].
  destruct (QC.upload_fault env); [discriminate|].
  destruct (QC.update_fault env); [discriminate|].
  simpl. intros _. exists pid, file. done.
Qed.

(** With every collaborator call answered, the handler succeeds. *)
Lemma replace_audio_succeeds (w : World) (env : QC.ReplaceEnv) (t_gen t_qc : Timestamp)
    (pid : string) (file : Buffer) (notes : option string) :
  pid <> "" -> QC.upload_fault env = None -> QC.update_fault env = None ->
  fst (QC.replace_audio_POST w env t_gen t_qc (valid_form pid file notes)) = ReplyOk.
Proof.
  intros Hne Hup Hupd. unfold QC.replace_audio_POST, storage_upload, update_eq. simpl.
  apply String.eqb_neq in Hne. rewrite Hne, Hup, Hupd. reflexivity.
Qed.

(** When the read of the counter is answered, a successful call on an
    existing row sets every field as the route documents and adds one to the
    counter. *)
Lemma replace_audio_increments (w : World) (env : QC.ReplaceEnv) (t_gen t_qc : Timestamp)
    (form : QC.ReplaceForm) (pid : string) (p : Participant) :
  QC.f_prolific_pid form = Some pid ->
  participants w !! pid = Some p ->
  QC.read_fault env = None ->
  fst (QC.replace_audio_POST w env t_gen t_qc form) = ReplyOk ->
  exists p', participants (snd (QC.replace_audio_POST w env t_gen t_qc form)) !! pid = Some p'
    /\ audio_status p' = Some "generated"
    /\ audio_generated_at p' = Some t_gen
    /\ audio_error p' = None
    /\ qc_status p' = "pending"
    /\ qc_checked_at p' = Some t_qc
    /\ qc_notes p' = str_or_null (QC.f_qc_notes form)
    /\ qc_replaced_count p' = qc_replaced_count p + 1.
Proof.
  intros Hpid Hp Hread Hok.
  apply replace_audio_ok in Hok as (pid' & file & Hpid' & _ & _ & _ & _ & _ & ->).
  assert (pid' = pid) as -> by congruence.
  rewrite lookup_alter_eq, Hp. simpl. eexists. split; [reflexivity|].
  unfold QC.currentCount, select_single. rewrite Hread, Hp. simpl. done.
Qed.

(** Two successive calls, both with the read answered: the counter goes up
    by two, and the row has QC status pending and audio status generated
    after each. *)
Lemma replace_audio_twice (w : World) (env1 env2 : QC.ReplaceEnv)
    (t1 t1' t2 t2' : Timestamp) (form1 form2 : QC.ReplaceForm)
    (pid : string) (p : Participant) :
  QC.f_prolific_pid form1 = Some pid -> QC.f_prolific_pid form2 = Some pid ->
  participants w !! pid = Some p ->
  QC.read_fault env1 = None -> QC.read_fault env2 = None ->
  let r1 := QC.replace_audio_POST w env1 t1 t1' form1 in
  let r2 := QC.replace_audio_POST (snd r1) env2 t2 t2' form2 in
  fst r1 = ReplyOk -> fst r2 = ReplyOk ->
  exists p1 p2,
    participants (snd r1) !! pid = Some p1 /\ participants (snd r2) !! pid = Some p2
    /\ qc_status p1 = "pending" /\ audio_status p1 = Some "generated"
    /\ qc_status p2 = "pending" /\ audio_status p2 = Some "generated"
    /\ qc_replaced_count p2 = qc_replaced_count p + 2.
Proof.
  intros Hf1 Hf2 Hp Hr1 Hr2 r1 r2 Hok1 Hok2.
  destruct (replace_audio_increments w env1 t1 t1' form1 pid p Hf1 Hp Hr1 Hok1)
    as (p1 & Hp1 & Hs1 & _ & _ & Hq1 & _ & _ & Hc1).
  destruct (replace_audio_increments (snd r1) env2 t2 t2' form2 pid p1 Hf2 Hp1 Hr2 Hok2)
    as (p2 & Hp2 & Hs2 & _ & _ & Hq2 & _ & _ & Hc2).
  exists p1, p2. repeat split; try done. lia.
Qed.

(** C6 (the code departs from the claim): the handler does not look at the
    error of the read of [qc_replaced_count].  On an existing row whose
    counter is 3, a call whose upload and update are accepted but whose read
    is refused answers [{ ok: true }] and leaves the counter at 1, not at 4;
    the other fields are set as claimed.  With the read answered the same call
    gives 4. *)
Theorem replace_audio_unread_count_restarts :
  let refused := QC.mkReplaceEnv None (Some (mkPgError "503" "upstream unavailable")) None in
  let answered := QC.mkReplaceEnv None None None in
  let bad := QC.replace_audio_POST world_p7 refused 10%nat 10%nat new_take in
  let good := QC.replace_audio_POST world_p7 answered 10%nat 10%nat new_take in
  fst bad = ReplyOk
  /\ qc_replaced_count <$> participants (snd bad) !! "P7" = Some 1
  /\ audio_status <$> participants (snd bad) !! "P7" = Some (Some "generated")
  /\ qc_status <$> participants (snd bad) !! "P7" = Some "pending"
  /\ fst good = ReplyOk
  /\ qc_replaced_count <$> participants (snd good) !! "P7" = Some 4.
Proof. vm_compute. repeat split; reflexivity. Qed.

(** ** The audio generation script: the low condition *)

Lemma generateAudio_world (tts : string -> Batch.TtsOutcome) (text : string) (w : World) :
  snd (Batch.generateAudio tts text w) = Batch.with_tts_request text w.
Proof. unfold Batch.generateAudio. by destruct (tts text). Qed.

(** What [generateAudio] throws is an [Error] with a non-empty message. *)
Lemma generateAudio_throws (tts : string -> Batch.TtsOutcome) (text : string) (w : World)
    (err : Thrown) :
  fst (Batch.generateAudio tts text w) = inl err ->
  exists m, err = JsError m /\ m <> "".
Proof.
  unfold Batch.generateAudio. destruct (tts text); simpl; [discriminate|].
  intros [= <-]. eexists. split; [reflexivity|]. discriminate.
Qed.

Lemma uploadAudio_cases (fault : option string) (path : string) (buffer : Buffer)
    (w : World) :
  (fault = None /\ Batch.uploadAudio fault path buffer w
                   = (None, Batch.with_storage (<[path := buffer]> (storage w)) w))
  \/ (exists m, fault = Some m
        /\ Batch.uploadAudio fault path buffer w
           = (Some (JsError ("Supabase upload error: " +:+ m)), w)).
Proof.
  unfold Batch.uploadAudio, storage_upload. destruct fault as [m|]; [right|left]; eauto.
Qed.

(** The listing finds [low.mp3] exactly when the call is answered and the
    object is in the bucket. *)
Lemma lowFileExists_spec (st : gmap string Buffer) (fault : bool) :
  Batch.lowFileExists (Batch.storage_list st fault "low.mp3") = true
  <-> fault = false /\ is_Some (st !! "low.mp3").
Proof.
  unfold Batch.storage_list, Batch.lowFileExists. destruct fault.
  - split; [discriminate | by intros [? _]].
  - rewrite existsb_exists. split.
    + intros (name & Hin & Heq). apply String.eqb_eq in Heq as <-.
      apply filter_In in Hin as [Hin _]. apply in_map_iff in Hin as ([k v] & Hk & Hin).
      simpl in Hk. subst k. apply list_elem_of_In, elem_of_map_to_list in Hin. eauto.
    + intros [_ [v Hv]]. exists "low.mp3". split; [|apply String.eqb_refl].
      apply filter_In. split; [|reflexivity].
      apply in_map_iff. exists ("low.mp3", v). split; [reflexivity|].
      by apply list_elem_of_In, elem_of_map_to_list.
Qed.

Lemma update_low_pending_lookup (db : gmap string Participant) (now : Timestamp)
    (pid : string) :
  Batch.update_low_pending db now !! pid =
  (fun p => if Batch.is_low_pending p then Batch.mark_generated "low.mp3" now p else p)
    <$> db !! pid.
Proof. unfold Batch.update_low_pending. apply lookup_fmap. Qed.

Lemma mark_generated_not_pending (path : string) (now : Timestamp) (p : Participant) :
  Batch.is_low_pending (Batch.mark_generated path now p) = false.
Proof. unfold Batch.is_low_pending. simpl. apply andb_false_r. Qed.

(** After the bulk update no low row is pending, so a second bulk update
    changes nothing. *)
Lemma update_low_pending_idem (db : gmap string Participant) (now now' : Timestamp) :
  Batch.update_low_pending (Batch.update_low_pending db now) now'
  = Batch.update_low_pending db now.
Proof.
  apply map_eq. intros pid. rewrite !update_low_pending_lookup.
  destruct (db !! pid) as [p|]; simpl; [|reflexivity].
  destruct (Batch.is_low_pending p) eqn:Hp; [by rewrite mark_generated_not_pending|].
  by rewrite Hp.
Qed.

Lemma low_bulk_update_frame (env : Batch.LowEnv) (w : World) :
  storage (Batch.low_bulk_update env w).2 = storage w
  /\ tts_requests (Batch.low_bulk_update env w).2 = tts_requests w.
Proof. unfold Batch.low_bulk_update. by destruct (Batch.low_update_fault env). Qed.

(** One run sends at most one request to the provider, and none when the
    listing shows the artifact. *)
Lemma low_run_requests (env : Batch.LowEnv) (w : World) :
  tts_requests (Batch.processLowCondition env w).2 =
  if Batch.lowFileExists (Batch.storage_list (storage w) (Batch.list_fault env) "low.mp3")
  then tts_requests w
  else tts_requests w ++ [Batch.TEXTS_low].
Proof.
  unfold Batch.processLowCondition.
  destruct (Batch.lowFileExists _); simpl; [apply low_bulk_update_frame|].
  pose proof (generateAudio_world (Batch.low_tts env) Batch.TEXTS_low w) as Hw.
  destruct (Batch.generateAudio _ _ _) as [[err|audio] w1]; simpl in Hw; subst w1;
    [reflexivity|].
  destruct (uploadAudio_cases (Batch.low_upload_fault env) "low.mp3" audio
              (Batch.with_tts_request Batch.TEXTS_low w)) as [[_ ->] | (m & _ & ->)];
    [|reflexivity].
  by rewrite (proj2 (low_bulk_update_frame _ _)).
Qed.

(** A successful run: the report, the table and the bucket afterwards. *)
Lemma low_run_success (env : Batch.LowEnv) (w : World) :
  low_run_succeeds env w ->
  (Batch.processLowCondition env w).1.2
    = Batch.Updated (length (Batch.updated_rows (participants w)))
  /\ participants (Batch.processLowCondition env w).2
     = Batch.update_low_pending (participants w) (Batch.low_now env)
  /\ is_Some (storage (Batch.processLowCondition env w).2 !! "low.mp3").
Proof.
  intros [Hart Hupd]. unfold Batch.processLowCondition.
  destruct (Batch.lowFileExists _) eqn:Hex; simpl.
  - apply lowFileExists_spec in Hex as [_ Hex].
    unfold Batch.low_bulk_update. rewrite Hupd. done.
  - destruct Hart as [|[[audio Htts] Hup]]; [discriminate|].
    unfold Batch.generateAudio. rewrite Htts.
    unfold Batch.uploadAudio, storage_upload. rewrite Hup.
    unfold Batch.low_bulk_update. rewrite Hupd. simpl.
    split; [done|]. split; [done|]. rewrite lookup_insert_eq. eauto.
Qed.

(** A failed creation: the function returns 0 and leaves the table alone. *)
Lemma low_run_artifact_failure (env : Batch.LowEnv) (w : World) :
  artifact_creation_fails env w ->
  (Batch.processLowCondition env w).1.1 = 0%nat
  /\ (exists err, (Batch.processLowCondition env w).1.2 = Batch.ArtifactFailed err)
  /\ participants (Batch.processLowCondition env w).2 = participants w.
Proof.
  intros [Hex Hnot]. unfold Batch.processLowCondition. rewrite Hex. simpl.
  unfold Batch.generateAudio.
  destruct (Batch.low_tts env Batch.TEXTS_low) as [audio|status text] eqn:Htts; simpl.
  - unfold Batch.uploadAudio, storage_upload.
    destruct (Batch.low_upload_fault env) as [m|] eqn:Hup; simpl; [eauto|].
    exfalso. apply Hnot. split; eauto.
  - eauto.
Qed.

(** Whatever happens, the table after a run is the table before it or its
    bulk update, and the bucket gains at most the object [low.mp3]. *)
Lemma low_run_effects (env : Batch.LowEnv) (w : World) :
  (participants (Batch.processLowCondition env w).2 = participants w
   \/ participants (Batch.processLowCondition env w).2
      = Batch.update_low_pending (participants w) (Batch.low_now env))
  /\ (storage (Batch.processLowCondition env w).2 = storage w
      \/ exists audio, storage (Batch.processLowCondition env w).2
                       = <["low.mp3" := audio]> (storage w)).
Proof.
  unfold Batch.processLowCondition, Batch.low_bulk_update, Batch.generateAudio,
    Batch.uploadAudio, storage_upload.
  destruct (Batch.lowFileExists _); simpl.
  - destruct (Batch.low_update_fault env); simpl; auto.
  - destruct (Batch.low_tts env Batch.TEXTS_low) as [audio|]; simpl; [|auto].
    destruct (Batch.low_upload_fault env); simpl; [auto|].
    destruct (Batch.low_update_fault env); simpl; eauto.
Qed.

(** C4 (amended): a run of the low branch sends at most one request to the
    provider and stores at most the one object [low.mp3], however many low
    rows are pending.  After a successful run every low row that was pending
    has status generated and path [low.mp3]; a second run leaves the table
    unchanged, and sends no request to the provider when its listing of the
    bucket is answered.  When the artifact is missing and cannot be created,
    the table is unchanged. *)
Theorem low_batch_shares_one_artifact (env env2 : Batch.LowEnv) (w : World) :
  let w1 := (Batch.processLowCondition env w).2 in
  let w2 := (Batch.processLowCondition env2 w1).2 in
  (length (tts_requests w1) <= length (tts_requests w) + 1)%nat
  /\ (storage w1 = storage w \/ exists audio, storage w1 = <["low.mp3" := audio]> (storage w))
  /\ (low_run_succeeds env w ->
        (forall pid p, participants w !! pid = Some p -> Batch.is_low_pending p = true ->
           exists p1, participants w1 !! pid = Some p1
             /\ audio_status p1 = Some "generated"
             /\ audio_path p1 = Some "low.mp3"
             /\ audio_error p1 = None
             /\ audio_generated_at p1 = Some (Batch.low_now env))
        /\ participants w2 = participants w1
        /\ (Batch.list_fault env2 = false -> tts_requests w2 = tts_requests w1))
  /\ (artifact_creation_fails env w -> participants w1 = participants w).
Proof.
  intros w1 w2. split; [|split; [|split]].
  - subst w1. rewrite low_run_requests. destruct (Batch.lowFileExists _).
    + lia.
    + rewrite length_app. simpl. lia.
  - apply low_run_effects.
  - intros Hok. destruct (low_run_success env w Hok) as (_ & Hdb & Hst).
    fold w1 in Hdb, Hst. split; [|split].
    + intros pid p Hp Hpending. rewrite Hdb, update_low_pending_lookup, Hp. simpl.
      rewrite Hpending. eexists. split; [reflexivity|]. done.
    + subst w2. destruct (low_run_effects env2 w1) as [[-> | ->] _]; [done|].
      rewrite Hdb. apply update_low_pending_idem.
    + intros Hlist. subst w2. rewrite low_run_requests.
      assert (Batch.lowFileExists
                (Batch.storage_list (storage w1) (Batch.list_fault env2) "low.mp3") = true)
        as -> by (by apply lowFileExists_spec).
      reflexivity.
  - intros Hfail. by destruct (low_run_artifact_failure env w Hfail) as (_ & _ & ?).
Qed.

(** Two pending low rows: one request to the provider over two runs, both
    rows at [low.mp3]; with the provider down the table is unchanged. *)
Lemma low_batch_shares_one_artifact_witness :
  (exists p1, participants (Batch.processLowCondition low_env_ok world_two_low).2 !! "P2" = Some p1
     /\ audio_status p1 = Some "generated" /\ audio_path p1 = Some "low.mp3")
  /\ tts_requests
       (Batch.processLowCondition low_env_ok
          (Batch.processLowCondition low_env_ok world_two_low).2).2
     = [Batch.TEXTS_low]
  /\ participants (Batch.processLowCondition low_env_down world_two_low).2
     = participants world_two_low.
Proof.
  pose proof (low_batch_shares_one_artifact low_env_ok low_env_ok world_two_low)
    as (_ & _ & Hok & _).
  pose proof (low_batch_shares_one_artifact low_env_down low_env_ok world_two_low)
    as (_ & _ & _ & Hfail).
  destruct Hok as (Hrows & _ & Hreq).
  { split; [right; split; [by eexists | reflexivity] | reflexivity]. }
  split; [|split].
  - destruct (Hrows "P2" low_pending) as (p1 & Hp1 & Hs & Hpath & _);
      [vm_compute; reflexivity | reflexivity |].
    exists p1. split; [exact Hp1 | split; [exact Hs | exact Hpath]].
  - rewrite (Hreq eq_refl). vm_compute. reflexivity.
  - apply Hfail. split; [vm_compute; reflexivity|].
    intros [[audio Haudio] _]. discriminate.
Defined.

(** The claim as stated fails: after a successful run, a second run whose
    listing of the bucket is refused does not see [low.mp3] and sends a
    second request to the provider. *)
Lemma low_rerun_regenerates_when_listing_fails :
  ~ (forall (env env2 : Batch.LowEnv) (w : World),
       low_run_succeeds env w ->
       tts_requests (Batch.processLowCondition env2 (Batch.processLowCondition env w).2).2
       = tts_requests (Batch.processLowCondition env w).2).
Proof.
  intros H.
  specialize (H low_env_ok low_env_unlisted world_two_low).
  assert (low_run_succeeds low_env_ok world_two_low) as Hok.
  { split; [right; split; [by eexists | reflexivity] | reflexivity]. }
  specialize (H Hok). vm_compute in H. discriminate.
Qed.

(** ** The audio generation script: the medium and high conditions *)

Lemma process_record_iteration (renv : Batch.RecordEnv) (pid : string)
    (cond : option string) (w : World) :
  fst (Batch.process_record renv pid cond w) = fst (iteration renv pid cond)
  /\ participants (snd (Batch.process_record renv pid cond w))
     = match Batch.status_update_fault renv with
       | Some _ => participants w
       | None => alter (snd (iteration renv pid cond)) pid (participants w)
       end.
Proof.
  unfold Batch.process_record, iteration, Batch.generateAudio, Batch.uploadAudio,
    storage_upload, Batch.on_catch, update_eq.
  destruct (Batch.tts renv _) as [audio|status errorText].
  - destruct (Batch.upload_fault renv) as [m|];
      destruct (Batch.status_update_fault renv); done.
  - destruct (Batch.status_update_fault renv); done.
Qed.

Lemma process_record_lookup (renv : Batch.RecordEnv) (pid : string)
    (cond : option string) (w : World) (pid' : string) :
  participants (snd (Batch.process_record renv pid cond w)) !! pid' =
  if decide (pid = pid') then row_update renv pid cond <$> participants w !! pid'
  else participants w !! pid'.
Proof.
  rewrite (proj2 (process_record_iteration renv pid cond w)). unfold row_update.
  destruct (Batch.status_update_fault renv).
  - case_decide; [|done]. by destruct (participants w !! pid').
  - case_decide as Heq; [subst; apply lookup_alter_eq | by apply lookup_alter_ne].
Qed.

(** The loop runs to the end of the list whatever each iteration does: the
    counters add up to the number of rows, every row of the list has received
    its own update, and no other row has changed. *)
Lemma process_all_spec (env : Batch.Env) (rows : list (string * option string)) :
  NoDup rows.*1 ->
  forall (generated errors : nat) (w : World),
    ((Batch.process_all env rows generated errors w).1.1
     + (Batch.process_all env rows generated errors w).1.2
     = generated + errors + length rows)%nat
    /\ (forall pid, pid ∉ rows.*1 ->
          participants (Batch.process_all env rows generated errors w).2 !! pid
          = participants w !! pid)
    /\ (forall pid cond, (pid, cond) ∈ rows ->
          participants (Batch.process_all env rows generated errors w).2 !! pid
          = row_update (Batch.record_env env pid) pid cond <$> participants w !! pid).
Proof.
  induction rows as [|[pid0 cond0] rest IH]; intros Hnd generated errors w.
  - simpl. split; [lia|]. split; [done|]. intros pid cond H. by apply elem_of_nil in H.
  - rewrite fmap_cons in Hnd. apply NoDup_cons in Hnd as [Hfresh Hnd]. simpl in Hfresh.
    pose proof (process_record_lookup (Batch.record_env env pid0) pid0 cond0 w) as Hrow.
    simpl.
    destruct (Batch.process_record (Batch.record_env env pid0) pid0 cond0 w) as [flag w1].
    simpl in Hrow.
    assert (forall g e,
      ((Batch.process_all env rest g e w1).1.1 + (Batch.process_all env rest g e w1).1.2
       = g + e + length rest)%nat
      /\ (forall pid, pid ∉ pid0 :: rest.*1 ->
            participants (Batch.process_all env rest g e w1).2 !! pid = participants w !! pid)
      /\ (forall pid cond, (pid, cond) ∈ (pid0, cond0) :: rest ->
            participants (Batch.process_all env rest g e w1).2 !! pid
            = row_update (Batch.record_env env pid) pid cond <$> participants w !! pid))
      as Hstep.
    { intros g e. destruct (IH Hnd g e w1) as (Hcount & Hother & Hself).
      split; [exact Hcount|]. split.
      - intros pid Hpid. apply not_elem_of_cons in Hpid as [Hne Hpid].
        rewrite (Hother pid Hpid), Hrow. by rewrite decide_False.
      - intros pid cond Hin. apply elem_of_cons in Hin as [[= -> ->] | Hin].
        + rewrite (Hother pid0 Hfresh), Hrow. by rewrite decide_True.
        + rewrite (Hself pid cond Hin), Hrow.
          assert (pid0 <> pid) as Hne.
          { intros ->. apply Hfresh. apply list_elem_of_fmap. by exists (pid, cond). }
          by rewrite decide_False. }
    destruct flag.
    + destruct (Hstep (S generated) errors) as (Hcount & Hother & Hself).
      split; [simpl; lia|]. split; [exact Hother | exact Hself].
    + destruct (Hstep generated (S errors)) as (Hcount & Hother & Hself).
      split; [simpl; lia|]. split; [exact Hother | exact Hself].
Qed.

Lemma iteration_generated (renv : Batch.RecordEnv) (pid : string) (cond : option string) :
  fst (iteration renv pid cond) = true ->
  snd (iteration renv pid cond) = Batch.mark_generated (pid +:+ ".mp3") (Batch.now renv).
Proof.
  unfold iteration. destruct (Batch.tts renv _); [|discriminate].
  by destruct (Batch.upload_fault renv).
Qed.

Lemma iteration_error (renv : Batch.RecordEnv) (pid : string) (cond : option string) :
  fst (iteration renv pid cond) = false ->
  exists msg, msg <> ""
    /\ snd (iteration renv pid cond) = Batch.mark_error (String.substring 0 500 msg).
Proof.
  unfold iteration. destruct (Batch.tts renv _).
  - destruct (Batch.upload_fault renv); [|discriminate].
    intros _. eexists. split; [|reflexivity]. discriminate.
  - intros _. eexists. split; [|reflexivity]. discriminate.
Qed.

(** An applied update leaves the row generated or in error, never both. *)
Lemma row_update_outcome (renv : Batch.RecordEnv) (pid : string) (cond : option string)
    (p : Participant) :
  Batch.status_update_fault renv = None ->
  (fst (iteration renv pid cond) = true /\ ends_generated renv pid (row_update renv pid cond p))
  \/ (fst (iteration renv pid cond) = false /\ ends_error p (row_update renv pid cond p)).
Proof.
  intros Hupd. unfold row_update. rewrite Hupd.
  destruct (fst (iteration renv pid cond)) eqn:Hflag.
  - left. split; [done|]. rewrite (iteration_generated _ _ _ Hflag). done.
  - right. split; [done|]. destruct (iteration_error _ _ _ Hflag) as (msg & Hne & ->).
    split; [done|]. split; [|done].
    exists msg. split; [done|]. split; [done|].
    split; [by apply substring_0_nonempty | apply substring_0_length].
Qed.

Lemma List_filter_sublist {A} (f : A -> bool) (l : list A) : List.filter f l `sublist_of` l.
Proof.
  induction l as [|x l IH]; simpl; [constructor|].
  destruct (f x); by constructor.
Qed.

(** The fetched rows are rows of the table, pending in the medium or high
    condition, no more than the cap, without repetition. *)
Lemma processed_spec (env : Batch.Env) (db : gmap string Participant) :
  Batch.row_order env db ≡ₚ map_to_list db ->
  (length (processed env db) <= Batch.BATCH_SIZE)%nat
  /\ NoDup (processed env db).*1
  /\ (forall pid p, (pid, p) ∈ processed env db ->
        db !! pid = Some p /\ Batch.is_medium_high_pending p = true).
Proof.
  intros Hperm. unfold processed. destruct (Batch.fetch_fault env) as [e|].
  - split; [simpl; lia|]. split; [constructor|]. intros pid p H. by apply elem_of_nil in H.
  - split; [rewrite length_take; lia|]. split.
    + apply (sublist_NoDup _ (Batch.row_order env db).*1).
      * rewrite Hperm. apply NoDup_fst_map_to_list.
      * apply fmap_sublist. etrans; [apply sublist_take | apply List_filter_sublist].
    + intros pid p Hin. apply (subseteq_take Batch.BATCH_SIZE) in Hin.
      apply list_elem_of_In, filter_In in Hin as [Hin Hpending].
      apply list_elem_of_In in Hin. rewrite Hperm in Hin.
      by apply elem_of_map_to_list in Hin.
Qed.

Lemma processMediumHighConditions_unfold (env : Batch.Env) (w : World) :
  Batch.processMediumHighConditions env w =
  Batch.process_all env
    (map (fun kp => (fst kp, condition (snd kp))) (processed env (participants w))) 0 0 w.
Proof.
  unfold Batch.processMediumHighConditions, Batch.fetch_pending, processed.
  destruct (Batch.fetch_fault env); [reflexivity|].
  by destruct (map _ _).
Qed.

(** C5 (amended): a run of the medium/high branch processes at most 50 pending
    rows; generated plus errors equals their number; every processed row
    whose status update the database applies ends the run generated, at the
    path made of its identifier (distinct identifiers give distinct paths),
    or in error, with a non-empty message of at most 500 characters and its
    previous path, and never both; this holds for each row whatever happened
    to the rows before it; the rows that were not fetched are unchanged. *)
Theorem medium_high_batch_outcomes (env : Batch.Env) (w : World) :
  (forall db, Batch.row_order env db ≡ₚ map_to_list db) ->
  let rows := processed env (participants w) in
  let '(generated, errors, w') := Batch.processMediumHighConditions env w in
  (length rows <= 50)%nat
  /\ (generated + errors = length rows)%nat
  /\ (forall pid p, (pid, p) ∈ rows ->
        participants w !! pid = Some p /\ Batch.is_medium_high_pending p = true)
  /\ (forall pid p, (pid, p) ∈ rows ->
        Batch.status_update_fault (Batch.record_env env pid) = None ->
        exists p', participants w' !! pid = Some p'
          /\ (ends_generated (Batch.record_env env pid) pid p' \/ ends_error p p')
          /\ ~ (audio_status p' = Some "generated" /\ audio_status p' = Some "error"))
  /\ (forall pid1 pid2 : string, pid1 +:+ ".mp3" = pid2 +:+ ".mp3" -> pid1 = pid2)
  /\ (forall pid, pid ∉ rows.*1 -> participants w' !! pid = participants w !! pid).
Proof.
  intros Hperm rows.
  destruct (processed_spec env (participants w) (Hperm _)) as (Hcap & Hnd & Hrows).
  fold rows in Hcap, Hnd, Hrows.
  rewrite processMediumHighConditions_unfold. fold rows.
  set (fetched := map (fun kp => (fst kp, condition (snd kp))) rows).
  assert (fetched.*1 = rows.*1) as Hfst.
  { unfold fetched. rewrite <- list_fmap_compose. by apply list_fmap_ext. }
  assert (NoDup fetched.*1) as Hnd' by (by rewrite Hfst).
  pose proof (process_all_spec env fetched Hnd' 0 0 w) as Hall.
  destruct (Batch.process_all env fetched 0 0 w) as [[generated errors] w'].
  destruct Hall as (Hcount & Hother & Hself). simpl in Hcount, Hother, Hself.
  split; [exact Hcap|]. split.
  { rewrite Hcount. unfold fetched. rewrite length_map. lia. }
  split; [exact Hrows|]. split; [|split].
  - intros pid p Hin Hupd. destruct (Hrows pid p Hin) as [Hp _].
    assert ((pid, condition p) ∈ fetched) as Hin'.
    { unfold fetched. apply list_elem_of_fmap. by exists (pid, p). }
    rewrite (Hself pid (condition p) Hin'), Hp. simpl. eexists. split; [reflexivity|].
    split; [|intros [H1 H2]; congruence].
    destruct (row_update_outcome (Batch.record_env env pid) pid (condition p) p Hupd)
      as [[_ H] | [_ H]]; [by left | by right].
  - intros pid1 pid2. apply append_inj_l.
  - intros pid Hpid. apply Hother. by rewrite Hfst.
Qed.

(** The first row fetched fails at the provider and ends in error; the
    second is still processed and ends generated at [P2.mp3]. *)
Lemma medium_high_batch_outcomes_witness :
  processed env_p3_refused (participants world_medium_high)
    = [("P3", high_pending); ("P2", medium_pending)]
  /\ (Batch.processMediumHighConditions env_p3_refused world_medium_high).1 = (1%nat, 1%nat)
  /\ (exists p', participants (Batch.processMediumHighConditions env_p3_refused
                                world_medium_high).2 !! "P3" = Some p'
                 /\ ends_error high_pending p')
  /\ (exists p', participants (Batch.processMediumHighConditions env_p3_refused
                                world_medium_high).2 !! "P2" = Some p'
                 /\ audio_status p' = Some "generated"
                 /\ audio_path p' = Some "P2.mp3").
Proof.
  assert (processed env_p3_refused (participants world_medium_high)
          = [("P3", high_pending); ("P2", medium_pending)]) as Hrows
    by (vm_compute; reflexivity).
  pose proof (medium_high_batch_outcomes env_p3_refused world_medium_high
                (fun db => reflexivity _)) as H.
  cbv zeta in H. rewrite Hrows in H.
  destruct (Batch.processMediumHighConditions env_p3_refused world_medium_high)
    as [[generated errors] w'] eqn:Hrun.
  destruct H as (_ & Hcount & _ & Hrow & _).
  assert ((generated, errors) = (1%nat, 1%nat)) as Hcounters.
  { change (generated, errors) with ((generated, errors, w').1). rewrite <- Hrun.
    vm_compute. reflexivity. }
  split; [exact Hrows|]. split; [exact Hcounters|]. simpl. split.
  - destruct (Hrow "P3" high_pending) as (p' & Hp' & [Hgen | Herr] & _).
    + apply list_elem_of_here.
    + reflexivity.
    + exfalso. destruct Hgen as (Hs & _).
      assert (participants w' !! "P3"
              = participants (Batch.processMediumHighConditions env_p3_refused
                                world_medium_high).2 !! "P3") as Hw by (by rewrite Hrun).
      rewrite Hw in Hp'. vm_compute in Hp'. injection Hp' as <-. discriminate Hs.
    + exists p'. split; [exact Hp' | exact Herr].
  - destruct (Hrow "P2" medium_pending) as (p' & Hp' & [Hgen | Herr] & _).
    + apply list_elem_of_further, list_elem_of_here.
    + reflexivity.
    + exists p'. destruct Hgen as (Hs & Hpath & _).
      split; [exact Hp' | split; [exact Hs | exact Hpath]].
    + exfalso. destruct Herr as (Hs & _).
      assert (participants w' !! "P2"
              = participants (Batch.processMediumHighConditions env_p3_refused
                                world_medium_high).2 !! "P2") as Hw by (by rewrite Hrun).
      rewrite Hw in Hp'. vm_compute in Hp'. injection Hp' as <-. discriminate Hs.
Defined.

(** The claim as stated fails: when the database refuses the status update
    of an iteration, the counter is bumped and the row stays pending, neither
    generated nor in error. *)
Lemma refused_status_update_leaves_row_pending :
  ~ (forall (env : Batch.Env) (w : World),
       (forall db, Batch.row_order env db ≡ₚ map_to_list db) ->
       forall pid p, (pid, p) ∈ processed env (participants w) ->
       exists p', participants (Batch.processMediumHighConditions env w).2 !! pid = Some p'
         /\ (audio_status p' = Some "generated" \/ audio_status p' = Some "error")).
Proof.
  intros H.
  destruct (H env_updates_refused world_medium_high (fun db => reflexivity _)
              "P2" medium_pending) as (p' & Hp' & Hstatus).
  - assert (processed env_updates_refused (participants world_medium_high)
            = [("P3", high_pending); ("P2", medium_pending)]) as ->
      by (vm_compute; reflexivity).
    apply list_elem_of_further, list_elem_of_here.
  - vm_compute in Hp'. injection Hp' as <-.
    destruct Hstatus as [Hs | Hs]; discriminate Hs.
Qed.

(** ** The T1 page: the audio gate *)

Section Gate.

Variable scales : list T1Page.Scale.

(** No handler ever sets the flag back to [false]. *)
Lemma handle_latch (ev : T1Page.Event) (st : T1Page.State) :
  T1Page.canContinueAudio st = true ->
  T1Page.canContinueAudio (T1Page.handle scales ev st) = true.
Proof.
  intros Hc. destruct ev as [pid fetched|t| |itemId val| |outcome]; simpl.
  - unfold T1Page.fetchAudio. repeat case_match; simpl; done.
  - destruct (Qle_bool 2 t && negb (T1Page.canContinueAudio st)); done.
  - done.
  - done.
  - unfold T1Page.handleContinue. repeat case_match; done.
  - unfold T1Page.handleSubmit_settled. repeat case_match; done.
Qed.

Lemma dispatch_latch (ev : T1Page.Event) (st : T1Page.State) :
  T1Page.canContinueAudio st = true ->
  T1Page.canContinueAudio (T1Page.dispatch scales st ev) = true.
Proof.
  intros Hc. unfold T1Page.dispatch.
  destruct (T1Page.can_occur scales st ev); [by apply handle_latch | done].
Qed.

Lemma run_latch (evs : list T1Page.Event) (st : T1Page.State) :
  T1Page.canContinueAudio st = true ->
  T1Page.canContinueAudio (T1Page.run scales evs st) = true.
Proof.
  revert st. induction evs as [|ev evs IH]; intros st Hc; [done|].
  simpl. apply IH. by apply dispatch_latch.
Qed.

Lemma run_snoc (evs : list T1Page.Event) (ev : T1Page.Event) (st : T1Page.State) :
  T1Page.run scales (evs ++ [ev]) st = T1Page.dispatch scales (T1Page.run scales evs st) ev.
Proof. unfold T1Page.run. by rewrite fold_left_app. Qed.

(** The flag goes from [false] to [true] only on an event that opens the
    gate. *)
Lemma dispatch_opens (ev : T1Page.Event) (st : T1Page.State) :
  T1Page.canContinueAudio (T1Page.dispatch scales st ev) = true ->
  T1Page.canContinueAudio st = true \/ opens_gate ev.
Proof.
  unfold T1Page.dispatch. destruct (T1Page.can_occur scales st ev); [|by left].
  destruct (T1Page.canContinueAudio st) eqn:Hc; [by left|].
  destruct ev as [pid fetched|t| |itemId val| |outcome]; simpl.
  - unfold T1Page.fetchAudio. repeat case_match; simpl; rewrite ?Hc; by left.
  - rewrite Hc. destruct (Qle_bool 2 t) eqn:Ht; simpl; rewrite ?Hc; [|by left].
    intros _. right. right. exists t. split; [done|]. by apply Qle_bool_iff.
  - intros _. right. by left.
  - rewrite Hc. by left.
  - unfold T1Page.handleContinue. repeat case_match; simpl; rewrite ?Hc; by left.
  - unfold T1Page.handleSubmit_settled. repeat case_match; simpl; rewrite ?Hc; by left.
Qed.

(** In the audio step both playback events reach their handler, and an
    opening event sets the flag. *)
Lemma dispatch_opening_event (ev : T1Page.Event) (st : T1Page.State) :
  T1Page.step st = T1Page.audio -> opens_gate ev ->
  T1Page.canContinueAudio (T1Page.dispatch scales st ev) = true.
Proof.
  intros Hstep [-> | (t & -> & Ht)]; unfold T1Page.dispatch; simpl; rewrite Hstep; simpl.
  - done.
  - apply Qle_bool_iff in Ht. rewrite Ht. simpl.
    by destruct (T1Page.canContinueAudio st) eqn:Hc; simpl.
Qed.

(** The page leaves the audio step for the survey only through the Continue
    button, which is disabled while the flag is [false]. *)
Lemma dispatch_to_survey (ev : T1Page.Event) (st : T1Page.State) :
  ~ past_audio (T1Page.step st) ->
  past_audio (T1Page.step (T1Page.dispatch scales st ev)) ->
  T1Page.step st = T1Page.audio /\ ev = T1Page.ClickContinue
  /\ T1Page.canContinueAudio st = true
  /\ T1Page.step (T1Page.dispatch scales st ev) = T1Page.survey.
Proof.
  unfold T1Page.dispatch, past_audio. intros Hnot.
  destruct (T1Page.can_occur scales st ev) eqn:Hcan; [|done].
  destruct ev as [pid fetched|t| |itemId val| |outcome]; simpl in *.
  - destruct (fetchAudio_step pid fetched st) as [-> | (_ & _ & _ & _ & -> & _)];
      intros [|[|]]; discriminate.
  - intros H. exfalso. apply Hnot. revert H.
    destruct (Qle_bool 2 t && negb (T1Page.canContinueAudio st)); done.
  - done.
  - done.
  - unfold T1Page.continue_enabled in Hcan. unfold T1Page.handleContinue.
    destruct (T1Page.step st) eqn:Hstep; try discriminate.
    + intros _. done.
    + exfalso. apply Hnot. by left.
  - apply bool_decide_eq_true in Hcan. exfalso. apply Hnot. right. by left.
Qed.

(** In every state the page reaches, a step after the audio step means the
    flag is set. *)
Lemma past_audio_gate_open (evs : list T1Page.Event) :
  past_audio (T1Page.step (T1Page.run scales evs T1Page.initial)) ->
  T1Page.canContinueAudio (T1Page.run scales evs T1Page.initial) = true.
Proof.
  induction evs as [|ev evs IH] using rev_ind.
  - intros [|[|]]; discriminate.
  - rewrite run_snoc. intros Hpast.
    destruct (T1Page.step (T1Page.run scales evs T1Page.initial)) eqn:Hstep;
      try (apply dispatch_latch, IH; unfold past_audio; rewrite ?Hstep; by auto);
      (apply dispatch_to_survey in Hpast as (Haudio & _ & Hc & _);
         [by apply dispatch_latch | rewrite Hstep; intros [|[|]]; discriminate]).
Qed.

Lemma gate_opened_by_event (evs : list T1Page.Event) :
  T1Page.canContinueAudio (T1Page.run scales evs T1Page.initial) = true ->
  exists ev, ev ∈ evs /\ opens_gate ev.
Proof.
  induction evs as [|ev evs IH] using rev_ind; [discriminate|].
  rewrite run_snoc. intros H. apply dispatch_opens in H as [H | H].
  - destruct (IH H) as (ev' & Hin & Hopen). exists ev'. split; [|done].
    apply elem_of_app. by left.
  - exists ev. split; [|done]. apply elem_of_app. right. by apply list_elem_of_singleton.
Qed.

End Gate.

(** C8: the page goes from the audio step to the first scale only with the
    continue gate open, and the gate opens only on a time update at a playback
    time of at least 2 or on the end of playback, each of which opens it in
    the audio step; once open the gate stays open through every later event
    of the session. *)
Theorem continue_gate_is_a_latch (scales : list T1Page.Scale)
    (evs more : list T1Page.Event) (ev : T1Page.Event) :
  let st := T1Page.run scales evs T1Page.initial in
  (T1Page.step st = T1Page.audio ->
     T1Page.step (T1Page.dispatch scales st ev) = T1Page.survey ->
     ev = T1Page.ClickContinue /\ T1Page.canContinueAudio st = true)
  /\ (T1Page.canContinueAudio st = true \/ past_audio (T1Page.step st) ->
        exists ev', ev' ∈ evs /\ opens_gate ev')
  /\ (T1Page.step st = T1Page.audio -> opens_gate ev ->
        T1Page.canContinueAudio (T1Page.dispatch scales st ev) = true)
  /\ (T1Page.canContinueAudio st = true ->
        T1Page.canContinueAudio (T1Page.run scales more st) = true).
Proof.
  intros st. split; [|split; [|split]].
  - intros Hstep Hnext.
    destruct (dispatch_to_survey scales ev st) as (_ & -> & Hc & _).
    + rewrite Hstep. intros [|[|]]; discriminate.
    + by left.
    + done.
  - intros [Hc | Hpast].
    + by apply (gate_opened_by_event scales).
    + by apply (gate_opened_by_event scales), past_audio_gate_open.
  - apply dispatch_opening_event.
  - apply run_latch.
Qed.

(** After two and a half seconds of playback the gate is open; seeking back
    to the start and playing again does not close it. *)
Lemma continue_gate_is_a_latch_witness :
  T1Page.step (T1Page.run T1Page.T1_ITEMS listened T1Page.initial) = T1Page.audio
  /\ T1Page.canContinueAudio
       (T1Page.run T1Page.T1_ITEMS replayed
          (T1Page.run T1Page.T1_ITEMS listened T1Page.initial)) = true
  /\ (exists ev', ev' ∈ listened /\ opens_gate ev')
  /\ T1Page.canContinueAudio
       (T1Page.dispatch T1Page.T1_ITEMS
          (T1Page.run T1Page.T1_ITEMS [T1Page.Mounted (Some "P1") (Some ready_body)]
             T1Page.initial) T1Page.Ended) = true.
Proof.
  destruct (continue_gate_is_a_latch T1Page.T1_ITEMS listened replayed T1Page.ClickContinue)
    as (_ & Hopened & _ & Hlatch).
  destruct (continue_gate_is_a_latch T1Page.T1_ITEMS
              [T1Page.Mounted (Some "P1") (Some ready_body)] [] T1Page.Ended)
    as (_ & _ & Hopen & _).
  split; [vm_compute; reflexivity|]. split; [|split].
  - apply Hlatch. vm_compute; reflexivity.
  - apply Hopened. left. vm_compute; reflexivity.
  - apply Hopen; [vm_compute; reflexivity | by left].
Defined.

(** ** The T1 page: the scales *)

Section Scales.

Variable scales : list T1Page.Scale.

(** The active scales are the scales with an active item, in the order of the
    configuration. *)
Lemma activeScales_spec (scale : T1Page.Scale) :
  scale ∈ T1Page.activeScales scales <->
  scale ∈ scales /\ exists item, item ∈ T1Page.items scale /\ T1Page.active item = true.
Proof.
  unfold T1Page.activeScales. rewrite !list_elem_of_In, filter_In, existsb_exists.
  split; intros [Hin (item & Hitem & Hact)]; (split; [done|]); exists item;
    (split; [|done]); by apply list_elem_of_In.
Qed.

Lemma activeScales_sublist : T1Page.activeScales scales `sublist_of` scales.
Proof. apply List_filter_sublist. Qed.

(** The radio inputs only record integers from 1 to 7. *)
Lemma radio_rendered_range (st : T1Page.State) (itemId : string) (val : Z) :
  T1Page.radio_rendered scales st itemId val = true -> 1 <= val <= 7.
Proof.
  unfold T1Page.radio_rendered. destruct (_ !! _); [|discriminate].
  intros [_ H]%andb_true_iff. apply existsb_exists in H as (x & Hin & Heq).
  apply Z.eqb_eq in Heq as ->. simpl in Hin. lia.
Qed.

Lemma dispatch_answers_range (st : T1Page.State) (ev : T1Page.Event) :
  (forall id v, T1Page.answers st !! id = Some v -> 1 <= v <= 7) ->
  forall id v, T1Page.answers (T1Page.dispatch scales st ev) !! id = Some v -> 1 <= v <= 7.
Proof.
  intros Hinv id v. unfold T1Page.dispatch.
  destruct (T1Page.can_occur scales st ev) eqn:Hcan; [|apply Hinv].
  destruct ev as [pid fetched|t| |itemId val| |outcome]; simpl in *.
  - unfold T1Page.fetchAudio. repeat case_match; simpl; apply Hinv.
  - destruct (Qle_bool 2 t && negb (T1Page.canContinueAudio st)); simpl; apply Hinv.
  - apply Hinv.
  - apply andb_true_iff in Hcan as [_ Hcan]. apply radio_rendered_range in Hcan.
    destruct (decide (itemId = id)) as [->|Hne].
    + rewrite lookup_insert_eq. by intros [= <-].
    + rewrite lookup_insert_ne by done. apply Hinv.
  - unfold T1Page.handleContinue. repeat case_match; simpl; apply Hinv.
  - unfold T1Page.handleSubmit_settled. repeat case_match; simpl; apply Hinv.
Qed.

Lemma run_answers_range (evs : list T1Page.Event) (id : string) (v : Z) :
  T1Page.answers (T1Page.run scales evs T1Page.initial) !! id = Some v -> 1 <= v <= 7.
Proof.
  revert id v. induction evs as [|ev evs IH] using rev_ind; intros id v.
  - simpl. by rewrite lookup_empty.
  - rewrite run_snoc. by apply dispatch_answers_range.
Qed.

(** [isCurrentScaleComplete] on a survey step that shows a scale. *)
Lemma isCurrentScaleComplete_spec (st : T1Page.State) (scale : T1Page.Scale) :
  T1Page.step st = T1Page.survey ->
  T1Page.activeScales scales !! T1Page.currentScaleIndex st = Some scale ->
  exists b, T1Page.isCurrentScaleComplete scales st = Some b
    /\ (b = true <->
        forall item, item ∈ T1Page.items scale -> T1Page.active item = true ->
          is_Some (T1Page.answers st !! T1Page.item_id item)).
Proof.
  intros Hstep Hscale. unfold T1Page.isCurrentScaleComplete.
  rewrite Hstep, Hscale. simpl. eexists. split; [reflexivity|].
  rewrite forallb_forall. split.
  - intros H item Hin Hact. eapply bool_decide_eq_true_1, H, filter_In.
    split; [by apply list_elem_of_In | done].
  - intros H item [Hin Hact]%filter_In. apply bool_decide_eq_true_2, H; [|done].
    by apply list_elem_of_In.
Qed.

(** The button of a survey step is enabled exactly when the scale shown is
    complete. *)
Lemma continue_enabled_survey (st : T1Page.State) (scale : T1Page.Scale) :
  T1Page.step st = T1Page.survey ->
  T1Page.activeScales scales !! T1Page.currentScaleIndex st = Some scale ->
  T1Page.continue_enabled scales st = true <->
  forall item, item ∈ T1Page.items scale -> T1Page.active item = true ->
    is_Some (T1Page.answers st !! T1Page.item_id item).
Proof.
  intros Hstep Hscale.
  destruct (isCurrentScaleComplete_spec st scale Hstep Hscale) as (b & Hb & Hiff).
  unfold T1Page.continue_enabled. rewrite Hstep, Hb. exact Hiff.
Qed.

(** Whatever the event, the page leaves the scale it shows, for the next
    scale or for submission, only by an enabled button of the survey step:
    no other handler writes [currentScaleIndex], and none takes the page off
    the survey step. *)
Lemma dispatch_leaves_scale (st : T1Page.State) (ev : T1Page.Event) :
  T1Page.currentScaleIndex (T1Page.dispatch scales st ev) <> T1Page.currentScaleIndex st
  \/ (T1Page.step st = T1Page.survey
      /\ T1Page.step (T1Page.dispatch scales st ev) <> T1Page.survey) ->
  ev = T1Page.ClickContinue /\ T1Page.step st = T1Page.survey
  /\ T1Page.continue_enabled scales st = true.
Proof.
  unfold T1Page.dispatch.
  destruct (T1Page.can_occur scales st ev) eqn:Hcan; [|by intros [? | [? ?]]].
  destruct ev as [pid fetched|t| |itemId val| |outcome];
    cbn [T1Page.handle]; cbn [T1Page.can_occur] in Hcan.
  - apply bool_decide_eq_true_1 in Hcan. intros [Hidx | [Hstep _]]; [|congruence].
    exfalso. apply Hidx. unfold T1Page.fetchAudio, T1Page.fail.
    repeat case_match; reflexivity.
  - apply bool_decide_eq_true_1 in Hcan. intros [Hidx | [Hstep _]]; [|congruence].
    exfalso. apply Hidx. unfold T1Page.handleTimeUpdate, T1Page.setCanContinueAudio.
    by case_match.
  - apply bool_decide_eq_true_1 in Hcan. intros [Hidx | [Hstep _]]; [|congruence].
    by destruct Hidx.
  - intros [Hidx | [Hstep Hleft]]; [by destruct Hidx|]. by destruct Hleft.
  - unfold T1Page.handleContinue.
    destruct (T1Page.step st) eqn:Hstep; by intros [? | [? ?]].
  - apply bool_decide_eq_true_1 in Hcan. intros [Hidx | [Hstep _]]; [|congruence].
    exfalso. apply Hidx. unfold T1Page.handleSubmit_settled, T1Page.fail, T1Page.setStep.
    repeat case_match; reflexivity.
Qed.

End Scales.

(** C9: the step sequence of the survey is the list of the scales that have
    an active item, in configuration order, and the step count is its length
    plus one, so a scale without active items is in neither.  On the survey
    step showing scale [i], a click on the button changes the state only when
    every active item of the scale has an answer, an integer from 1 to 7; then
    it moves to scale [i+1], or to submission after the last scale; with no
    item of the scale answered the click changes nothing.  And whatever the
    event, the index of the scale shown changes, or the page leaves the survey
    step, only by that click on a survey step whose scale has every active
    item answered by an integer from 1 to 7. *)
Theorem scale_advances_only_when_complete (scales : list T1Page.Scale)
    (evs : list T1Page.Event) (ev : T1Page.Event) :
  let st := T1Page.run scales evs T1Page.initial in
  let next := T1Page.dispatch scales st T1Page.ClickContinue in
  (forall scale, scale ∈ T1Page.activeScales scales <->
     scale ∈ scales /\ exists item, item ∈ T1Page.items scale /\ T1Page.active item = true)
  /\ T1Page.activeScales scales `sublist_of` scales
  /\ T1Page.totalSteps scales = S (length (T1Page.activeScales scales))
  /\ (forall scale,
        T1Page.step st = T1Page.survey ->
        T1Page.activeScales scales !! T1Page.currentScaleIndex st = Some scale ->
        (next <> st -> all_answered st scale)
        /\ (all_answered st scale ->
              if bool_decide (T1Page.currentScaleIndex st
                              < length (T1Page.activeScales scales) - 1)%nat
              then T1Page.step next = T1Page.survey
                   /\ T1Page.currentScaleIndex next = S (T1Page.currentScaleIndex st)
                   /\ T1Page.answers next = T1Page.answers st
              else T1Page.step next = T1Page.submitting
                   /\ T1Page.answers next = T1Page.answers st)
        /\ (none_answered st scale -> next = st))
  /\ (T1Page.currentScaleIndex (T1Page.dispatch scales st ev) <> T1Page.currentScaleIndex st
      \/ (T1Page.step st = T1Page.survey
          /\ T1Page.step (T1Page.dispatch scales st ev) <> T1Page.survey) ->
      ev = T1Page.ClickContinue /\ T1Page.step st = T1Page.survey
      /\ exists scale,
           T1Page.activeScales scales !! T1Page.currentScaleIndex st = Some scale
           /\ all_answered st scale).
Proof.
  intros st next. split; [apply activeScales_spec|].
  split; [apply activeScales_sublist|].
  split; [unfold T1Page.totalSteps; lia|].
  split; cycle 1.
  { intros Hleft. apply dispatch_leaves_scale in Hleft as (-> & Hstep & Hen).
    split; [done|]. split; [done|].
    destruct (T1Page.activeScales scales !! T1Page.currentScaleIndex st) as [scale|] eqn:Hscale.
    - exists scale. split; [done|]. intros item Hin Hact.
      destruct (proj1 (continue_enabled_survey scales st scale Hstep Hscale) Hen item Hin Hact)
        as [v Hv].
      exists v. split; [done|]. by apply (run_answers_range scales evs (T1Page.item_id item)).
    - exfalso. unfold T1Page.continue_enabled, T1Page.isCurrentScaleComplete in Hen.
      rewrite Hstep in Hen. simpl in Hen. rewrite Hscale in Hen. discriminate. }
  intros scale Hstep Hscale.
  pose proof (continue_enabled_survey scales st scale Hstep Hscale) as Henabled.
  split; [|split].
  - intros Hmoved. assert (T1Page.continue_enabled scales st = true) as Hen.
    { destruct (T1Page.continue_enabled scales st) eqn:Hen; [done|].
      exfalso. apply Hmoved. subst next. unfold T1Page.dispatch. simpl. by rewrite Hen. }
    intros item Hin Hact.
    destruct (proj1 Henabled Hen item Hin Hact) as [v Hv].
    exists v. split; [done|]. by apply (run_answers_range scales evs (T1Page.item_id item)).
  - intros Hall. assert (T1Page.continue_enabled scales st = true) as Hen.
    { apply Henabled. intros item Hin Hact.
      destruct (Hall item Hin Hact) as (v & Hv & _). eauto. }
    subst next. unfold T1Page.dispatch. simpl. rewrite Hen.
    unfold T1Page.handleContinue. rewrite Hstep. by case_bool_decide.
  - intros Hnone.
    assert (scale ∈ T1Page.activeScales scales) as Hin
      by (by eapply list_elem_of_lookup_2).
    apply activeScales_spec in Hin as (_ & item & Hitem & Hact).
    subst next. unfold T1Page.dispatch. simpl.
    destruct (T1Page.continue_enabled scales st) eqn:Hen; [|done].
    exfalso. destruct (proj1 Henabled eq_refl item Hitem Hact) as [v Hv].
    specialize (Hnone item Hitem). congruence.
Qed.

(** Decision procedures for the two conditions on a concrete state. *)
Lemma all_answered_check (st : T1Page.State) (scale : T1Page.Scale) :
  forallb (fun item =>
             negb (T1Page.active item)
             || match T1Page.answers st !! T1Page.item_id item with
                | Some v => (1 <=? v) && (v <=? 7)
                | None => false
                end) (T1Page.items scale) = true ->
  all_answered st scale.
Proof.
  rewrite forallb_forall. intros H item Hin Hact.
  apply list_elem_of_In, H in Hin. rewrite Hact in Hin. simpl in Hin.
  destruct (T1Page.answers st !! T1Page.item_id item) as [v|]; [|discriminate].
  exists v. split; [done|]. lia.
Qed.

Lemma none_answered_check (st : T1Page.State) (scale : T1Page.Scale) :
  forallb (fun item =>
             match T1Page.answers st !! T1Page.item_id item with
             | Some _ => false
             | None => true
             end) (T1Page.items scale) = true ->
  none_answered st scale.
Proof.
  rewrite forallb_forall. intros H item Hin.
  apply list_elem_of_In, H in Hin.
  by destruct (T1Page.answers st !! T1Page.item_id item).
Qed.

(** On the first scale of the shipped questionnaire: no answer, no advance;
    ten answers, the second scale, and the scale left is fully answered. *)
Lemma scale_advances_only_when_complete_witness :
  T1Page.dispatch T1Page.T1_ITEMS
    (T1Page.run T1Page.T1_ITEMS on_first_scale T1Page.initial) T1Page.ClickContinue
  = T1Page.run T1Page.T1_ITEMS on_first_scale T1Page.initial
  /\ T1Page.currentScaleIndex
       (T1Page.dispatch T1Page.T1_ITEMS
          (T1Page.run T1Page.T1_ITEMS first_scale_answered T1Page.initial)
          T1Page.ClickContinue) = 1%nat
  /\ exists scale,
       T1Page.activeScales T1Page.T1_ITEMS
         !! T1Page.currentScaleIndex
              (T1Page.run T1Page.T1_ITEMS first_scale_answered T1Page.initial) = Some scale
       /\ all_answered (T1Page.run T1Page.T1_ITEMS first_scale_answered T1Page.initial) scale.
Proof.
  destruct (scale_advances_only_when_complete T1Page.T1_ITEMS on_first_scale
              (T1Page.RadioChange "rel1" 4))
    as (_ & _ & _ & Hempty & _).
  destruct (scale_advances_only_when_complete T1Page.T1_ITEMS first_scale_answered
              T1Page.ClickContinue)
    as (_ & _ & _ & Hfull & Hleft).
  split; [|split].
  - destruct (Hempty relevance) as (_ & _ & Hnone);
      [vm_compute; reflexivity | vm_compute; reflexivity |].
    apply Hnone, none_answered_check. vm_compute; reflexivity.
  - destruct (Hfull relevance) as (_ & Hall & _);
      [vm_compute; reflexivity | vm_compute; reflexivity |].
    assert (all_answered (T1Page.run T1Page.T1_ITEMS first_scale_answered T1Page.initial)
              relevance) as Hans
      by (apply all_answered_check; vm_compute; reflexivity).
    specialize (Hall Hans).
    assert (bool_decide
              (T1Page.currentScaleIndex
                 (T1Page.run T1Page.T1_ITEMS first_scale_answered T1Page.initial)
               < length (T1Page.activeScales T1Page.T1_ITEMS) - 1)%nat = true) as Hlt
      by (vm_compute; reflexivity).
    rewrite Hlt in Hall. destruct Hall as (_ & -> & _). vm_compute; reflexivity.
  - destruct Hleft as (_ & _ & Hscale); [|exact Hscale].
    left. vm_compute. discriminate.
Defined.

(** A configuration whose second scale has no active item: the survey has two
    scales and three steps, and the second step shows the third scale. *)
Example inactive_scale_is_skipped :
  let cfg :=
    [ T1Page.mkScale "a" "A" T1Page.likert [T1Page.mkItem "a1" true];
      T1Page.mkScale "b" "B" T1Page.likert [T1Page.mkItem "b1" false; T1Page.mkItem "b2" false];
      T1Page.mkScale "c" "C" T1Page.likert [T1Page.mkItem "c1" false; T1Page.mkItem "c2" true] ] in
  map T1Page.scale_id (T1Page.activeScales cfg) = ["a"; "c"]
  /\ T1Page.totalSteps cfg = 3%nat
  /\ T1Page.scale_id <$> T1Page.activeScales cfg !! 1%nat = Some "c".
Proof. vm_compute. repeat split; reflexivity. Qed.

(** The shipped questionnaire: five scales, six steps. *)
Example T1_ITEMS_steps :
  T1Page.activeScales T1Page.T1_ITEMS = T1Page.T1_ITEMS
  /\ T1Page.totalSteps T1Page.T1_ITEMS = 6%nat.
Proof. vm_compute. split; reflexivity. Qed.

(** * Further properties *)

#[local] Set Warnings "-clear-no-such-hyp".

(** ** GET /api/t1/get-audio: the shape of every answer *)

(** X1: the read endpoint answers 400 exactly when the identifier is missing
    or empty, 500 exactly on a database error other than PGRST116, the
    not-found body exactly when the database reports no row, and attaches a
    URL exactly when the row is found with status generated, a non-empty path
    and a successful signing. *)
Theorem get_audio_outcomes (db : gmap string Participant) (env : GetAudio.Env)
    (prolificPid : option string) :
  let out := GetAudio.GET db env prolificPid in
  (out.1 = 400%nat <-> truthy prolificPid = false)
  /\ (out.1 = 500%nat <->
      truthy prolificPid = true
      /\ exists e, GetAudio.select_fault env = Some e /\ code e <> "PGRST116")
  /\ (out.2 = GetAudio.not_found <->
      exists pid, prolificPid = Some pid /\ pid <> ""
        /\ ((exists e, GetAudio.select_fault env = Some e /\ code e = "PGRST116")
            \/ (GetAudio.select_fault env = None /\ db !! pid = None)))
  /\ (forall url, GetAudio.audio_url out.2 = Some url <->
        exists pid p path, prolificPid = Some pid /\ pid <> ""
          /\ GetAudio.select_fault env = None /\ db !! pid = Some p
          /\ audio_status p = Some "generated"
          /\ audio_path p = Some path /\ path <> ""
          /\ GetAudio.sign env path = Some url).
Proof.
  unfold GetAudio.GET, select_single.
  destruct prolificPid as [pid|]; cbn [truthy negb].
  2: { cbn. split; [done|]. split; [naive_solver|]. split; [naive_solver|]. naive_solver. }
  destruct (String.eqb_spec pid "") as [->|Hne]; cbn [negb].
  { cbn. split; [done|]. split; [naive_solver|]. split; [naive_solver|]. naive_solver. }
  destruct (GetAudio.select_fault env) as [e|] eqn:Hf.
  - destruct (String.eqb_spec (code e) "PGRST116") as [Hc|Hc]; cbn.
    + split; [done|]. split; [naive_solver|]. split; [naive_solver|]. naive_solver.
    + split; [done|]. split; [naive_solver|]. split; [naive_solver|]. naive_solver.
  - destruct (db !! pid) as [p|] eqn:Hp; cbn.
    + split; [done|]. split; [naive_solver|]. split; [naive_solver|].
      intros url. rewrite signed_url_Some. naive_solver.
    + split; [done|]. split; [naive_solver|]. split; [naive_solver|]. naive_solver.
Qed.

(** An identifier without a row is answered with the not-found body; a
    request without identifier with 400. *)
Lemma get_audio_outcomes_witness :
  (GetAudio.GET {[ "P7" := high_generated_unreviewed ]} signing_env (Some "P9")).2
    = GetAudio.not_found
  /\ (GetAudio.GET {[ "P7" := high_generated_unreviewed ]} signing_env None).1 = 400%nat.
Proof.
  destruct (get_audio_outcomes {[ "P7" := high_generated_unreviewed ]} signing_env (Some "P9"))
    as (_ & _ & Hnf & _).
  destruct (get_audio_outcomes {[ "P7" := high_generated_unreviewed ]} signing_env None)
    as (H400 & _).
  split.
  - apply Hnf. exists "P9". split; [reflexivity|]. split; [discriminate|].
    right. split; [reflexivity | vm_compute; reflexivity].
  - apply H400. reflexivity.
Defined.

(** ** The T1 page: terminal steps, bounds and the submitted answers *)

Section PageInvariants.

Variable scales : list T1Page.Scale.

(** X2: the complete and error steps are terminal: no event of the page
    changes the state again. *)
Theorem complete_and_error_are_terminal (st : T1Page.State) (evs : list T1Page.Event) :
  T1Page.step st = T1Page.complete \/ T1Page.step st = T1Page.error ->
  T1Page.run scales evs st = st.
Proof.
  intros Hstep. induction evs as [|ev evs IH]; [reflexivity|].
  simpl. assert (T1Page.dispatch scales st ev = st) as ->; [|exact IH].
  unfold T1Page.dispatch.
  assert (T1Page.can_occur scales st ev = false) as ->; [|reflexivity].
  unfold T1Page.can_occur, T1Page.continue_enabled.
  destruct Hstep as [-> | ->]; destruct ev; reflexivity.
Qed.

(** The index of the scale shown never passes the last active scale. *)
Lemma dispatch_index_bound (st : T1Page.State) (ev : T1Page.Event) :
  (T1Page.currentScaleIndex st <= length (T1Page.activeScales scales) - 1)%nat ->
  (T1Page.currentScaleIndex (T1Page.dispatch scales st ev)
   <= length (T1Page.activeScales scales) - 1)%nat.
Proof.
  intros Hb. unfold T1Page.dispatch.
  destruct (T1Page.can_occur scales st ev); [|exact Hb].
  destruct ev as [pid fetched|t| |itemId val| |outcome]; simpl.
  - unfold T1Page.fetchAudio. repeat case_match; simpl; exact Hb.
  - destruct (Qle_bool 2 t && negb (T1Page.canContinueAudio st)); simpl; exact Hb.
  - exact Hb.
  - exact Hb.
  - unfold T1Page.handleContinue. destruct (T1Page.step st); simpl; try exact Hb.
    case_bool_decide; simpl; lia.
  - unfold T1Page.handleSubmit_settled. repeat case_match; simpl; exact Hb.
Qed.

Lemma run_index_bound (evs : list T1Page.Event) :
  (T1Page.currentScaleIndex (T1Page.run scales evs T1Page.initial)
   <= length (T1Page.activeScales scales) - 1)%nat.
Proof.
  induction evs as [|ev evs IH] using rev_ind; [simpl; lia|].
  rewrite run_snoc. by apply dispatch_index_bound.
Qed.

End PageInvariants.

(** X3: with at least one active scale, the index of the current scale is
    within the active scales in every state the page reaches, so a survey step
    always has a scale to show and [isCurrentScaleComplete] never runs into an
    undefined scale. *)
Theorem survey_step_always_has_a_scale (scales : list T1Page.Scale)
    (evs : list T1Page.Event) :
  T1Page.activeScales scales <> [] ->
  exists scale,
    T1Page.activeScales scales !! T1Page.currentScaleIndex (T1Page.run scales evs T1Page.initial)
      = Some scale
    /\ T1Page.isCurrentScaleComplete scales (T1Page.run scales evs T1Page.initial) <> None.
Proof.
  intros Hne. pose proof (run_index_bound scales evs) as Hb.
  destruct (T1Page.activeScales scales) as [|s0 rest] eqn:Hact; [done|].
  simpl in Hb.
  destruct ((s0 :: rest) !! T1Page.currentScaleIndex (T1Page.run scales evs T1Page.initial))
    as [scale|] eqn:Hlook.
  - exists scale. split; [done|]. unfold T1Page.isCurrentScaleComplete.
    rewrite Hact, Hlook. by case_match.
  - apply lookup_ge_None in Hlook. simpl in Hlook. lia.
Qed.

Lemma survey_step_always_has_a_scale_witness :
  exists scale,
    T1Page.activeScales T1Page.T1_ITEMS
      !! T1Page.currentScaleIndex (T1Page.run T1Page.T1_ITEMS first_scale_answered T1Page.initial)
    = Some scale.
Proof.
  destruct (survey_step_always_has_a_scale T1Page.T1_ITEMS first_scale_answered)
    as (scale & Hscale & _).
  - vm_compute. discriminate.
  - by exists scale.
Defined.

Lemma complete_and_error_are_terminal_witness :
  T1Page.run T1Page.T1_ITEMS listened
    (T1Page.load T1Page.T1_ITEMS (participants after_batch) signing_env (Some "P1"))
  = T1Page.load T1Page.T1_ITEMS (participants after_batch) signing_env (Some "P1").
Proof.
  apply (complete_and_error_are_terminal T1Page.T1_ITEMS). right. vm_compute. reflexivity.
Defined.

Section PageProgress.

Variable scales : list T1Page.Scale.

Lemma fetchAudio_frame (prolificPid : option string) (fetched : option GetAudio.Body)
    (st : T1Page.State) :
  T1Page.answers (T1Page.fetchAudio prolificPid fetched st) = T1Page.answers st
  /\ T1Page.currentScaleIndex (T1Page.fetchAudio prolificPid fetched st)
     = T1Page.currentScaleIndex st.
Proof. unfold T1Page.fetchAudio. repeat case_match; done. Qed.

(** A click that is let through on a survey step finds its scale answered. *)
Lemma continue_enabled_answered (st : T1Page.State) :
  T1Page.step st = T1Page.survey ->
  T1Page.continue_enabled scales st = true ->
  exists scale,
    T1Page.activeScales scales !! T1Page.currentScaleIndex st = Some scale
    /\ scale_answered st scale.
Proof.
  intros Hstep Hen.
  destruct (T1Page.activeScales scales !! T1Page.currentScaleIndex st) as [scale|] eqn:Hscale.
  - exists scale. split; [done|].
    exact (proj1 (continue_enabled_survey scales st scale Hstep Hscale) Hen).
  - unfold T1Page.continue_enabled, T1Page.isCurrentScaleComplete in Hen.
    rewrite Hstep, Hscale in Hen. simpl in Hen. discriminate.
Qed.

Lemma dispatch_invariant (st : T1Page.State) (ev : T1Page.Event) :
  page_invariant scales st -> page_invariant scales (T1Page.dispatch scales st ev).
Proof.
  intros Hinv.
  pose proof (dispatch_answers_range scales st ev (proj1 Hinv)) as Hrange.
  pose proof (dispatch_index_bound scales st ev (proj1 (proj2 Hinv))) as Hbound.
  destruct Hinv as (_ & Hb & Hzero & Hprefix & Hall).
  split; [exact Hrange|]. split; [exact Hbound|]. clear Hrange Hbound.
  unfold T1Page.dispatch.
  destruct (T1Page.can_occur scales st ev) eqn:Hcan; [|done].
  destruct ev as [pid fetched|t| |itemId val| |outcome];
    cbn [T1Page.handle]; cbn [T1Page.can_occur] in Hcan.
  - apply bool_decide_eq_true in Hcan.
    destruct (fetchAudio_frame pid fetched st) as [Hans Hidx].
    destruct (fetchAudio_step pid fetched st) as [Hs | (_ & _ & _ & _ & Hs & _)];
      rewrite Hs, Hidx; (split; [intros _; apply Hzero; by left|]);
      split; try discriminate; intros [|]; discriminate.
  - apply bool_decide_eq_true in Hcan.
    assert (T1Page.step (T1Page.handleTimeUpdate (Some t) st) = T1Page.audio
            /\ T1Page.currentScaleIndex (T1Page.handleTimeUpdate (Some t) st)
               = T1Page.currentScaleIndex st) as [Hs Hidx].
    { simpl. by destruct (Qle_bool 2 t && negb (T1Page.canContinueAudio st)). }
    rewrite Hs, Hidx. split; [intros _; apply Hzero; by right|].
    split; try discriminate. intros [|]; discriminate.
  - apply bool_decide_eq_true in Hcan. simpl. rewrite Hcan.
    split; [intros _; apply Hzero; by right|].
    split; try discriminate. intros [|]; discriminate.
  - apply andb_true_iff in Hcan as [Hstep _]. apply bool_decide_eq_true in Hstep.
    simpl. rewrite Hstep. split; [intros [|]; discriminate|]. split.
    + intros _ j scale Hj Hscale item Hin Hact.
      apply lookup_insert_is_Some'. right. by apply (Hprefix Hstep j scale).
    + intros [|]; discriminate.
  - unfold T1Page.continue_enabled in Hcan. unfold T1Page.handleContinue.
    destruct (T1Page.step st) eqn:Hstep; try discriminate.
    + simpl. split; [intros [|]; discriminate|]. split; [|intros [|]; discriminate].
      intros _ j scale Hj. rewrite Hzero in Hj by (by right). lia.
    + assert (T1Page.continue_enabled scales st = true) as Hen
        by (unfold T1Page.continue_enabled; by rewrite Hstep).
      destruct (continue_enabled_answered st Hstep Hen) as (cur & Hcur & Hans).
      pose proof (lookup_lt_Some _ _ _ Hcur) as Hlt.
      case_bool_decide as Hlast; simpl; rewrite ?Hstep.
      * split; [intros [|]; discriminate|]. split; [|intros [|]; discriminate].
        intros _ j scale Hj Hscale.
        destruct (decide (j = T1Page.currentScaleIndex st)) as [->|Hne].
        -- by assert (scale = cur) as -> by congruence.
        -- apply (Hprefix eq_refl j scale); [lia | done].
      * split; [intros [|]; discriminate|]. split; [discriminate|].
        intros _ scale Hin. apply list_elem_of_lookup in Hin as [j Hscale].
        pose proof (lookup_lt_Some _ _ _ Hscale) as Hj.
        destruct (decide (j = T1Page.currentScaleIndex st)) as [->|Hne].
        -- by assert (scale = cur) as -> by congruence.
        -- apply (Hprefix eq_refl j scale); [lia | done].
  - apply bool_decide_eq_true in Hcan.
    unfold T1Page.handleSubmit_settled.
    destruct outcome as [[|http e]|]; simpl;
      (split; [intros [|]; discriminate|]); (split; [discriminate|]).
    + intros _. apply Hall. by left.
    + intros [|]; discriminate.
    + intros [|]; discriminate.
Qed.

Lemma run_invariant (evs : list T1Page.Event) :
  page_invariant scales (T1Page.run scales evs T1Page.initial).
Proof.
  induction evs as [|ev evs IH] using rev_ind.
  - split; [intros id v; simpl; by rewrite lookup_empty|].
    split; [simpl; lia|]. split; [done|].
    split; [discriminate | intros [|]; discriminate].
  - rewrite run_snoc. by apply dispatch_invariant.
Qed.

End PageProgress.

(** X4: the page reaches the submitting step, and from it the complete
    step, only with every active item of every active scale answered by an
    integer from 1 to 7: what is posted is a full questionnaire. *)
Theorem submission_has_every_answer (scales : list T1Page.Scale)
    (evs : list T1Page.Event) :
  T1Page.step (T1Page.run scales evs T1Page.initial) = T1Page.submitting
  \/ T1Page.step (T1Page.run scales evs T1Page.initial) = T1Page.complete ->
  questionnaire_answered scales (T1Page.run scales evs T1Page.initial).
Proof.
  intros Hstep scale Hin item Hitem Hact.
  destruct (run_invariant scales evs) as (Hrange & _ & _ & _ & Hall).
  destruct (Hall Hstep scale Hin item Hitem Hact) as [v Hv].
  exists v. split; [done|]. by apply (Hrange (T1Page.item_id item)).
Qed.

Lemma submission_has_every_answer_witness :
  questionnaire_answered T1Page.T1_ITEMS
    (T1Page.run T1Page.T1_ITEMS full_visit T1Page.initial).
Proof.
  apply submission_has_every_answer. left. vm_compute. reflexivity.
Defined.

(** X5: an answer is recorded only for an active item of an active scale of
    the configuration, and its value is an integer from 1 to 7. *)
Theorem answers_belong_to_active_items (scales : list T1Page.Scale)
    (evs : list T1Page.Event) (id : string) (v : Z) :
  T1Page.answers (T1Page.run scales evs T1Page.initial) !! id = Some v ->
  1 <= v <= 7
  /\ exists scale item, scale ∈ T1Page.activeScales scales
       /\ item ∈ T1Page.items scale /\ T1Page.active item = true
       /\ T1Page.item_id item = id.
Proof.
  intros Hv. split; [by apply (run_answers_range scales evs id)|].
  revert id v Hv. induction evs as [|ev evs IH] using rev_ind; intros id v.
  - simpl. by rewrite lookup_empty.
  - rewrite run_snoc. unfold T1Page.dispatch.
    set (st := T1Page.run scales evs T1Page.initial) in *.
    destruct (T1Page.can_occur scales st ev) eqn:Hcan; [|apply IH].
    destruct ev as [pid fetched|t| |itemId val| |outcome]; simpl in *.
    + rewrite (proj1 (fetchAudio_frame pid fetched st)). apply IH.
    + destruct (Qle_bool 2 t && negb (T1Page.canContinueAudio st)); simpl; apply IH.
    + apply IH.
    + destruct (decide (itemId = id)) as [->|Hne].
      * intros _. apply andb_true_iff in Hcan as [_ Hr].
        unfold T1Page.radio_rendered in Hr.
        destruct (T1Page.activeScales scales !! T1Page.currentScaleIndex st)
          as [scale|] eqn:Hscale; [|discriminate].
        apply andb_true_iff in Hr as [Hr _].
        apply existsb_exists in Hr as (item & Hin & Heq).
        apply filter_In in Hin as [Hin Hact]. apply String.eqb_eq in Heq.
        exists scale, item. split; [by eapply list_elem_of_lookup_2|].
        split; [by apply list_elem_of_In | done].
      * rewrite lookup_insert_ne by done. apply IH.
    + unfold T1Page.handleContinue. repeat case_match; simpl; apply IH.
    + unfold T1Page.handleSubmit_settled. repeat case_match; simpl; apply IH.
Qed.

Lemma answers_belong_to_active_items_witness :
  exists scale item, scale ∈ T1Page.activeScales T1Page.T1_ITEMS
    /\ item ∈ T1Page.items scale /\ T1Page.active item = true
    /\ T1Page.item_id item = "rel1".
Proof.
  destruct (answers_belong_to_active_items T1Page.T1_ITEMS first_scale_answered "rel1" 5)
    as [_ H].
  - vm_compute. reflexivity.
  - exact H.
Defined.

(** ** The T1 page against POST /api/t1/submit *)

(** X6: the round trip of a submission.  From the submitting step, with a
    non-empty identifier, the page ends in the complete step exactly when the
    handler's insert and update are both accepted, and in the error step
    otherwise; whenever the insert is accepted the row recorded in
    [responses_t1] carries the identifier and the answers of the page, also
    when the update is then refused and the page reports a failure; a refused
    insert changes nothing. *)
Theorem t1_page_submission_round (scales : list T1Page.Scale) (w : World)
    (env : T1Submit.Env) (timestamp completed_at : Timestamp) (pid : string)
    (st : T1Page.State) :
  T1Page.step st = T1Page.submitting -> pid <> "" ->
  let out := submit_round scales w env timestamp completed_at (Some pid) st in
  let row := mkResponseRow pid (SurveyPayload (T1Page.answers st) completed_at) in
  (T1Page.step out.1 = T1Page.complete <->
     T1Submit.insert_fault env = None /\ T1Submit.update_fault env = None)
  /\ (T1Page.step out.1 = T1Page.complete \/ T1Page.step out.1 = T1Page.error)
  /\ (T1Submit.insert_fault env = None -> responses_t1 out.2 = responses_t1 w ++ [row])
  /\ (T1Submit.insert_fault env <> None -> out.2 = w)
  /\ (T1Submit.update_fault env <> None -> participants out.2 = participants w)
  /\ (T1Submit.insert_fault env = None -> T1Submit.update_fault env = None ->
        participants out.2 = alter (T1Submit.stamp_t1 timestamp) pid (participants w)).
Proof.
  intros Hstep Hne. apply String.eqb_neq in Hne.
  unfold submit_round, T1Submit.POST, T1Page.submit_body, T1Submit.insert_response,
    update_eq, T1Page.dispatch.
  cbn [T1Submit.prolific_pid T1Submit.response_payload truthy negb default].
  rewrite Hne. cbn [negb T1Page.can_occur]. rewrite Hstep.
  destruct (T1Submit.insert_fault env) as [e1|]; [|destruct (T1Submit.update_fault env) as [e2|]];
    simpl; repeat split; try done; try (intros [? ?]; done); try (by left); by right.
Qed.

Lemma t1_page_submission_round_witness :
  T1Page.step (submit_round T1Page.T1_ITEMS world_p1 (T1Submit.mkEnv None None)
                 6%nat 5%nat (Some "P1") ready_to_submit).1 = T1Page.complete
  /\ length (responses_t1 (submit_round T1Page.T1_ITEMS world_p1 (T1Submit.mkEnv None None)
                             6%nat 5%nat (Some "P1") ready_to_submit).2) = 1%nat.
Proof.
  destruct (t1_page_submission_round T1Page.T1_ITEMS world_p1 (T1Submit.mkEnv None None)
              6%nat 5%nat "P1" ready_to_submit) as (Hc & _ & Hrow & _).
  - vm_compute. reflexivity.
  - discriminate.
  - split; [apply Hc; split; reflexivity|]. rewrite (Hrow eq_refl). reflexivity.
Defined.

(** ** POST /api/t1/submit: what a submission can touch *)

(** X7: a T1 submission only ever appends to [responses_t1], at most one row,
    and leaves the bucket alone; in the participants table it can change
    nothing but the T1 completion time of existing rows, and it creates no
    row: a submission for an identifier without a participant row is accepted
    and recorded all the same. *)
Theorem t1_submit_appends_only (w : World) (env : T1Submit.Env)
    (timestamp : Timestamp) (body : Thrown + T1Submit.Request) :
  let out := T1Submit.POST w env timestamp body in
  responses_t1 w `prefix_of` responses_t1 out.1.2
  /\ (length (responses_t1 out.1.2) <= S (length (responses_t1 w)))%nat
  /\ storage out.1.2 = storage w
  /\ (forall pid, participants out.1.2 !! pid = participants w !! pid
                  \/ exists p, participants w !! pid = Some p
                       /\ participants out.1.2 !! pid = Some (T1Submit.stamp_t1 timestamp p))
  /\ (forall b pid, body = inr b -> T1Submit.prolific_pid b = Some pid -> pid <> "" ->
        T1Submit.insert_fault env = None -> T1Submit.update_fault env = None ->
        participants w !! pid = None ->
        out.1.1 = ReplyOk
        /\ participants out.1.2 = participants w
        /\ responses_t1 out.1.2
           = responses_t1 w
             ++ [mkResponseRow pid (default EmptyObject (T1Submit.response_payload b))]).
Proof.
  cbv zeta. split; [|split; [|split; [|split]]].
  - destruct (T1_POST_run w env timestamp body); simpl;
      solve [reflexivity | by apply prefix_app_r].
  - destruct (T1_POST_run w env timestamp body); simpl; rewrite ?length_app; simpl; lia.
  - by destruct (T1_POST_run w env timestamp body).
  - intros pid. destruct (T1_POST_run w env timestamp body) as [| | |row]; simpl;
      try (by left).
    destruct (decide (resp_prolific_pid row = pid)) as [<-|Hne].
    + rewrite lookup_alter_eq.
      destruct (participants w !! resp_prolific_pid row) as [p|]; [right; eauto | by left].
    + left. by rewrite lookup_alter_ne.
  - intros b pid -> Hpid Hne Hi Hu Hnone.
    unfold T1Submit.POST, T1Submit.insert_response, update_eq.
    apply String.eqb_neq in Hne. rewrite Hpid. cbn [truthy negb]. rewrite Hne, Hi, Hu.
    simpl. split; [done|]. split; [|done].
    apply map_eq. intros k. destruct (decide (pid = k)) as [<-|Hk].
    + by rewrite lookup_alter_eq, Hnone.
    + by rewrite lookup_alter_ne.
Qed.

Lemma t1_submit_appends_only_witness :
  (T1Submit.POST world_p7 (T1Submit.mkEnv None None) 6%nat t1_body).1.1 = ReplyOk
  /\ participants (T1Submit.POST world_p7 (T1Submit.mkEnv None None) 6%nat t1_body).1.2
     = participants world_p7.
Proof.
  destruct (t1_submit_appends_only world_p7 (T1Submit.mkEnv None None) 6%nat t1_body)
    as (_ & _ & _ & _ & H).
  destruct (H (T1Submit.mkRequest (Some "P1") (Some (SurveyPayload p1_answers 5%nat))) "P1")
    as (Hok & Hdb & _);
    [reflexivity | reflexivity | discriminate | reflexivity | reflexivity
    | vm_compute; reflexivity |].
  split; [exact Hok | exact Hdb].
Defined.

(** ** The T0 page against POST /api/t0/submit *)

Lemma str_or_nonempty (s : option string) (d : string) : d <> "" -> str_or s d <> "".
Proof.
  intros Hd. unfold str_or. destruct s as [v|]; [|done].
  by destruct (String.eqb_spec v "").
Qed.

(** X8: the T0 page never sends a request the handler rejects as incomplete.
    Whatever the URL parameters, the identifier it posts is non-empty, a visit
    without [PROLIFIC_PID] being posted under the identifier [NOT_PROVIDED];
    the page shows success and the row of that identifier is written when the
    database accepts the upsert, and it shows "Database error" with the table
    unchanged when the database refuses it. *)
Theorem t0_page_always_passes_validation (db : gmap string Participant)
    (fault : option PgError) (now : Timestamp)
    (PROLIFIC_PID STUDY_ID SESSION_ID : option string) (firstName submitted_at : string) :
  let out := T0Page.handleSubmit db fault now PROLIFIC_PID STUDY_ID SESSION_ID
               firstName submitted_at in
  let pid := str_or PROLIFIC_PID "NOT_PROVIDED" in
  pid <> ""
  /\ (truthy PROLIFIC_PID = false -> pid = "NOT_PROVIDED")
  /\ (fault = None ->
        out.1 = T0Page.Success
        /\ out.2 = <[pid := T0Submit.upsert_fields
                              (Some (str_or STUDY_ID "NOT_PROVIDED"))
                              (Some (str_or SESSION_ID "NOT_PROVIDED")) now
                              (default column_defaults (db !! pid))]> db)
  /\ (forall e, fault = Some e ->
        out.1 = T0Page.ErrorResult "Database error" /\ out.2 = db).
Proof.
  cbv zeta.
  assert (str_or PROLIFIC_PID "NOT_PROVIDED" <> "") as Hne by (by apply str_or_nonempty).
  split; [exact Hne|]. split.
  { unfold truthy, str_or. destruct PROLIFIC_PID as [v|]; [|done].
    destruct (String.eqb v ""); [done | discriminate]. }
  apply String.eqb_neq in Hne.
  unfold T0Page.handleSubmit, T0Submit.POST, T0Page.body, T0Submit.upsert.
  cbn [T0Submit.prolific_pid T0Submit.t0_payload T0Submit.study_id T0Submit.session_id
       truthy negb].
  rewrite Hne. cbn [negb]. split.
  - intros ->. done.
  - intros e ->. done.
Qed.

Lemma t0_page_always_passes_validation_witness :
  (T0Page.handleSubmit ∅ None 1%nat None (Some "study456") None "Ada" "2024-01-15").1
    = T0Page.Success
  /\ is_Some ((T0Page.handleSubmit ∅ None 1%nat None (Some "study456") None
                 "Ada" "2024-01-15").2 !! "NOT_PROVIDED").
Proof.
  destruct (t0_page_always_passes_validation ∅ None 1%nat None (Some "study456") None
              "Ada" "2024-01-15") as (_ & Hpid & Hok & _).
  destruct (Hok eq_refl) as [Hs Hdb].
  split; [exact Hs|]. rewrite Hdb, (Hpid eq_refl), lookup_insert_eq. eauto.
Defined.

(** ** The QC routes *)

(** X9: approve and needs-fix write the verdict, the check time and the notes
    (empty notes as [null]) on the row of the identifier and nothing else: the
    audio fields and the replacement counter of that row are kept, every row
    other than the one the request names is left as it was, no row is created,
    and a request for an identifier without a row is answered [{ ok: true }]
    with the table unchanged. *)
Theorem qc_review_touches_only_review_fields (verdict : string)
    (db : gmap string Participant) (fault : option PgError) (now : Timestamp)
    (body : Thrown + QC.Request) :
  let out := QC.review_POST verdict db fault now body in
  (forall pid, out.2 !! pid = db !! pid
     \/ exists p p', db !! pid = Some p /\ out.2 !! pid = Some p'
          /\ same_but_review p p' /\ qc_status p' = verdict
          /\ qc_checked_at p' = Some now /\ out.1 = ReplyOk)
  /\ (forall b pid, body = inr b -> QC.prolific_pid b = Some pid -> pid <> "" ->
        fault = None ->
        out.1 = ReplyOk
        /\ out.2 !! pid = QC.review verdict now (QC.body_qc_notes b) <$> db !! pid
        /\ (db !! pid = None -> out.2 = db))
  /\ (forall pid',
        (forall b, body = inr b -> QC.prolific_pid b <> Some pid') ->
        out.2 !! pid' = db !! pid').
Proof.
  cbv zeta. unfold QC.review_POST, update_eq. split; [|split].
  - intros pid. destruct body as [err|b]; [by left|].
    destruct (QC.prolific_pid b) as [pid0|]; [|by left].
    destruct (negb _); [by left|].
    destruct fault; simpl; [by left|].
    destruct (decide (pid0 = pid)) as [->|Hne].
    + rewrite lookup_alter_eq. destruct (db !! pid) as [p|]; [|by left].
      right. exists p, (QC.review verdict now (QC.body_qc_notes b) p).
      repeat split; done.
    + left. by rewrite lookup_alter_ne.
  - intros b pid -> Hpid Hne ->. apply String.eqb_neq in Hne.
    rewrite Hpid. cbn [truthy negb]. rewrite Hne. simpl.
    split; [done|]. split; [apply lookup_alter_eq|].
    intros Hnone. apply map_eq. intros k. destruct (decide (pid = k)) as [<-|Hk].
    + by rewrite lookup_alter_eq, Hnone.
    + by rewrite lookup_alter_ne.
  - intros pid' Hother. destruct body as [err|b]; [done|].
    specialize (Hother b eq_refl).
    destruct (QC.prolific_pid b) as [pid0|]; [|done].
    destruct (negb _); [done|].
    assert (pid0 <> pid') as Hne by congruence.
    destruct fault; simpl; [done|]. by rewrite lookup_alter_ne.
Qed.

Lemma qc_review_touches_only_review_fields_witness :
  (QC.approve_POST qc_table None 9%nat (inr (QC.mkRequest (Some "P404") (Some "ok")))).1 = ReplyOk
  /\ (QC.approve_POST qc_table None 9%nat (inr (QC.mkRequest (Some "P404") (Some "ok")))).2
     = qc_table
  /\ (QC.approve_POST qc_table None 9%nat (inr (QC.mkRequest (Some "P7") None))).2 !! "P1"
     = qc_table !! "P1".
Proof.
  destruct (qc_review_touches_only_review_fields "approved" qc_table None 9%nat
              (inr (QC.mkRequest (Some "P404") (Some "ok")))) as (_ & H & _).
  destruct (qc_review_touches_only_review_fields "approved" qc_table None 9%nat
              (inr (QC.mkRequest (Some "P7") None))) as (_ & _ & Hothers).
  destruct (H (QC.mkRequest (Some "P404") (Some "ok")) "P404")
    as (Hok & _ & Hdb); [reflexivity | reflexivity | discriminate | reflexivity |].
  split; [exact Hok|]. split; [apply Hdb; vm_compute; reflexivity|].
  apply Hothers. intros b [= <-]. discriminate.
Defined.

Lemma needs_review_spec (p : Participant) :
  QCList.needs_review p = true <->
  condition p = Some "high" /\ audio_status p = Some "generated"
  /\ (qc_status p = "pending" \/ qc_status p = "needs_fix").
Proof.
  unfold QCList.needs_review.
  rewrite !andb_true_iff, orb_true_iff, !is_str_true, !String.eqb_eq. tauto.
Qed.

Lemma filter_newest_first {A} (g : A -> option Timestamp) (f : A -> bool) (l : list A) :
  newest_first (map g l) -> newest_first (map g (List.filter f l)).
Proof.
  induction l as [|x l IH]; simpl; [done|]. intros [Hx Hl].
  destruct (f x); simpl; [|by apply IH]. split; [|by apply IH].
  rewrite Forall_forall in Hx. apply Forall_forall. intros y Hy.
  apply list_elem_of_fmap in Hy as (a & -> & Ha).
  apply list_elem_of_In, filter_In in Ha as [Ha _].
  apply Hx, list_elem_of_fmap. exists a. split; [done|]. by apply list_elem_of_In.
Qed.

Lemma annotate_fields (env : QCList.Env) (pid : string) (p : Participant) :
  QCList.prolific_pid (QCList.annotate env (pid, p)) = pid
  /\ QCList.audio_generated_at (QCList.annotate env (pid, p)) = audio_generated_at p
  /\ QCList.qc_status (QCList.annotate env (pid, p)) = qc_status p
  /\ QCList.audio_url (QCList.annotate env (pid, p)) = QCList.entry_url env p.
Proof. by destruct p. Qed.

(** Membership in the listing, when the select is answered. *)
Lemma qc_list_membership (db : gmap string Participant) (env : QCList.Env)
    (e : QCList.Entry) :
  scans_table (QCList.row_order env) ->
  e ∈ map (QCList.annotate env)
        (List.filter (fun kp => QCList.needs_review kp.2) (QCList.row_order env db)) <->
  exists p, db !! QCList.prolific_pid e = Some p /\ QCList.needs_review p = true
    /\ e = QCList.annotate env (QCList.prolific_pid e, p).
Proof.
  intros Hscan. rewrite list_elem_of_fmap. split.
  - intros ([pid p] & -> & Hin).
    apply list_elem_of_In, filter_In in Hin as [Hin Hrev]. simpl in Hrev.
    apply list_elem_of_In in Hin. rewrite (Hscan db) in Hin.
    apply elem_of_map_to_list in Hin.
    destruct (annotate_fields env pid p) as (-> & _). by exists p.
  - intros (p & Hp & Hrev & He). exists (QCList.prolific_pid e, p). split; [exact He|].
    apply list_elem_of_In, filter_In. split; [|done].
    apply list_elem_of_In. rewrite (Hscan db). by apply elem_of_map_to_list.
Qed.

(** X10: when the select is answered, the dashboard listing holds exactly the
    rows with condition high, audio status generated and QC status pending or
    needs_fix, each once, each as its nine selected columns with the signed
    URL of its own path ([null] without a path or when signing that path
    fails, whatever happens to the other entries), in the order of the
    database's answer: the entries are the rows of the answer that pass the
    three tests, one entry per row and in the same order, hence newest first
    when the database orders as asked. *)
Theorem qc_list_entries (db : gmap string Participant) (env : QCList.Env) :
  scans_table (QCList.row_order env) ->
  QCList.select_fault env = None ->
  exists entries,
    QCList.GET db env = QCList.Listed entries
    /\ entries
       = map (QCList.annotate env)
           (List.filter
              (fun kp => bool_decide (condition kp.2 = Some "high"
                                      /\ audio_status kp.2 = Some "generated"
                                      /\ (qc_status kp.2 = "pending"
                                          \/ qc_status kp.2 = "needs_fix")))
              (QCList.row_order env db))
    /\ (forall e, e ∈ entries <->
          exists p, db !! QCList.prolific_pid e = Some p
            /\ condition p = Some "high" /\ audio_status p = Some "generated"
            /\ (qc_status p = "pending" \/ qc_status p = "needs_fix")
            /\ e = QCList.annotate env (QCList.prolific_pid e, p))
    /\ (forall e, e ∈ entries ->
          exists p, db !! QCList.prolific_pid e = Some p
            /\ QCList.audio_url e = QCList.entry_url env p)
    /\ NoDup (map QCList.prolific_pid entries)
    /\ (newest_first (map (fun kp => audio_generated_at kp.2) (QCList.row_order env db)) ->
        newest_first (map QCList.audio_generated_at entries)).
Proof.
  intros Hscan Hsel. unfold QCList.GET. rewrite Hsel. eexists. split; [reflexivity|].
  split; [|split; [|split; [|split]]].
  - f_equal. apply filter_ext. intros [pid p]. simpl.
    apply eq_true_iff_eq. rewrite needs_review_spec.
    split; [apply bool_decide_eq_true_2 | apply bool_decide_eq_true_1].
  - intros e. rewrite (qc_list_membership db env e Hscan).
    split; intros (p & Hp & H & He); exists p.
    + apply needs_review_spec in H. tauto.
    + split; [done|]. split; [|tauto]. apply needs_review_spec. tauto.
  - intros e He. apply (qc_list_membership db env e Hscan) in He as (p & Hp & _ & He).
    exists p. split; [done|]. rewrite He at 1. apply annotate_fields.
  - rewrite map_map.
    rewrite (map_ext _ fst) by (intros [pid p]; apply annotate_fields).
    apply (sublist_NoDup _ (QCList.row_order env db).*1).
    + rewrite (Hscan db). apply NoDup_fst_map_to_list.
    + apply fmap_sublist, List_filter_sublist.
  - intros Hsorted. rewrite map_map.
    rewrite (map_ext _ (fun kp => audio_generated_at kp.2))
      by (intros [pid p]; apply annotate_fields).
    by apply filter_newest_first.
Qed.

Lemma qc_list_entries_witness :
  exists entries,
    QCList.GET qc_table dashboard_env = QCList.Listed entries
    /\ QCList.annotate dashboard_env ("P7", high_generated_unreviewed) ∈ entries
    /\ QCList.audio_url (QCList.annotate dashboard_env ("P7", high_generated_unreviewed))
       = Some "https://storage/sign/ads-audio/P7.mp3".
Proof.
  destruct (qc_list_entries qc_table dashboard_env) as (entries & Hget & _ & Hin & _).
  - intros db. reflexivity.
  - reflexivity.
  - exists entries. split; [exact Hget|]. split; [|reflexivity]. apply Hin.
    exists high_generated_unreviewed.
    split; [vm_compute; reflexivity|]. split; [reflexivity|]. split; [reflexivity|].
    split; [by left | reflexivity].
Defined.

(** X11: how the QC actions move a high row with generated audio in and out
    of the dashboard listing.  After an accepted approve the row is no longer
    listed; after an accepted needs-fix it is listed with that status; after an
    accepted replace-audio it is listed again as pending, whatever its QC
    status was before, with the signed URL of the path made of its
    identifier. *)
Theorem qc_actions_and_the_listing (w : World) (env : QCList.Env) (now now' : Timestamp)
    (pid : string) (p : Participant) (notes : option string) (file : Buffer)
    (renv : QC.ReplaceEnv) :
  scans_table (QCList.row_order env) -> QCList.select_fault env = None ->
  pid <> "" -> participants w !! pid = Some p ->
  condition p = Some "high" -> audio_status p = Some "generated" ->
  let request := inr (QC.mkRequest (Some pid) notes) in
  let approved := (QC.approve_POST (participants w) None now request).2 in
  let flagged := (QC.needs_fix_POST (participants w) None now request).2 in
  let replaced := QC.replace_audio_POST w renv now now' (valid_form pid file notes) in
  (forall entries, QCList.GET approved env = QCList.Listed entries ->
     pid ∉ map QCList.prolific_pid entries)
  /\ (forall entries, QCList.GET flagged env = QCList.Listed entries ->
        exists e, e ∈ entries /\ QCList.prolific_pid e = pid
          /\ QCList.qc_status e = "needs_fix"
          /\ QCList.audio_url e = QCList.entry_url env p)
  /\ (replaced.1 = ReplyOk ->
      forall entries, QCList.GET (participants replaced.2) env = QCList.Listed entries ->
        exists e, e ∈ entries /\ QCList.prolific_pid e = pid
          /\ QCList.qc_status e = "pending"
          /\ QCList.audio_url e = QCList.sign env (pid +:+ ".mp3")).
Proof.
  intros Hscan Hsel Hne Hp Hhigh Hgen. cbv zeta.
  assert (String.eqb pid "" = false) as Hneb by (by apply String.eqb_neq).
  unfold QCList.GET. rewrite Hsel. split; [|split].
  - intros entries [= <-] Hin.
    apply list_elem_of_fmap in Hin as (e & Heq & Hin). subst pid.
    apply (qc_list_membership _ env e Hscan) in Hin as (p' & Hp' & Hrev & _).
    unfold QC.approve_POST, QC.review_POST, update_eq in Hp'.
    cbn [QC.prolific_pid truthy negb] in Hp'. rewrite Hneb in Hp'. simpl in Hp'.
    rewrite lookup_alter_eq, Hp in Hp'. injection Hp' as <-.
    apply needs_review_spec in Hrev as (_ & _ & [Hq | Hq]); discriminate Hq.
  - intros entries [= <-].
    set (p' := QC.review "needs_fix" now notes p).
    destruct (annotate_fields env pid p') as (Hpid & _ & Hqc & Hurl).
    exists (QCList.annotate env (pid, p')).
    split; [|split; [exact Hpid|split; [exact Hqc|exact Hurl]]].
    apply (qc_list_membership _ env _ Hscan). rewrite Hpid. exists p'. split; [|split].
    + unfold QC.needs_fix_POST, QC.review_POST, update_eq.
      cbn [QC.prolific_pid QC.body_qc_notes truthy negb]. rewrite Hneb. simpl.
      by rewrite lookup_alter_eq, Hp.
    + apply needs_review_spec. simpl. split; [done|]. split; [done|]. by right.
    + reflexivity.
  - intros Hok entries [= <-].
    apply replace_audio_ok in Hok as (pid' & file' & [= <-] & _ & _ & _ & _ & _ & Hdb).
    set (p' := QC.replaced (pid +:+ ".mp3") now now' notes
                 (QC.currentCount (participants w) (QC.read_fault renv) pid) p).
    destruct (annotate_fields env pid p') as (Hpid & _ & Hqc & Hurl).
    exists (QCList.annotate env (pid, p')).
    split; [|split; [exact Hpid|split; [exact Hqc|]]].
    + apply (qc_list_membership _ env _ Hscan). rewrite Hpid. exists p'.
      split; [|split; [|done]].
      * rewrite Hdb. by rewrite lookup_alter_eq, Hp.
      * apply needs_review_spec. simpl. split; [done|]. split; [done|]. by left.
    + rewrite Hurl. unfold QCList.entry_url. simpl.
      destruct (String.eqb_spec (pid +:+ ".mp3") "") as [Hempty|_]; [|done].
      apply (f_equal String.length) in Hempty. rewrite append_length in Hempty.
      simpl in Hempty. lia.
Qed.

Lemma qc_actions_and_the_listing_witness :
  exists entries,
    QCList.GET (QC.approve_POST qc_table None 9%nat
                  (inr (QC.mkRequest (Some "P7") None))).2 dashboard_env
    = QCList.Listed entries
    /\ "P7" ∉ map QCList.prolific_pid entries.
Proof.
  destruct (qc_actions_and_the_listing (mkWorld qc_table [] ∅ []) dashboard_env 9%nat 9%nat
              "P7" high_generated_unreviewed None [] (QC.mkReplaceEnv None None None))
    as (H & _).
  - intros db. reflexivity.
  - reflexivity.
  - discriminate.
  - vm_compute. reflexivity.
  - reflexivity.
  - reflexivity.
  - eexists. split; [reflexivity|]. apply H. reflexivity.
Defined.

(** X12: replace-audio does not undo its upload.  Once the upload is
    accepted the object at the identifier's path holds the new bytes whatever
    follows: when the update is refused the handler answers 500 with the table
    unchanged, and for an identifier without a row it answers [{ ok: true }]
    with the table unchanged; in every case the rows of other identifiers are
    untouched. *)
Theorem replace_audio_keeps_its_upload (w : World) (env : QC.ReplaceEnv)
    (t_gen t_qc : Timestamp) (pid : string) (file : Buffer) (notes : option string) :
  pid <> "" -> QC.upload_fault env = None ->
  let out := QC.replace_audio_POST w env t_gen t_qc (valid_form pid file notes) in
  storage out.2 = <[pid +:+ ".mp3" := file]> (storage w)
  /\ (forall e, QC.update_fault env = Some e ->
        out.1 = ReplyFailure 500 (message e) /\ participants out.2 = participants w)
  /\ (QC.update_fault env = None -> participants w !! pid = None ->
        out.1 = ReplyOk /\ participants out.2 = participants w)
  /\ (forall pid', pid' <> pid -> participants out.2 !! pid' = participants w !! pid').
Proof.
  intros Hne Hup. apply String.eqb_neq in Hne. cbv zeta.
  unfold QC.replace_audio_POST, storage_upload, update_eq. simpl.
  rewrite Hne, Hup. simpl.
  destruct (QC.update_fault env) as [e|]; simpl.
  - split; [done|]. split; [by intros e' [= <-]|]. split; [done|]. done.
  - split; [done|]. split; [done|]. split.
    + intros _ Hnone. split; [done|]. apply map_eq. intros k.
      destruct (decide (pid = k)) as [<-|Hk].
      * by rewrite lookup_alter_eq, Hnone.
      * by rewrite lookup_alter_ne.
    + intros pid' Hpid'. by rewrite lookup_alter_ne.
Qed.

Lemma replace_audio_keeps_its_upload_witness :
  storage (QC.replace_audio_POST world_p7
             (QC.mkReplaceEnv None None (Some (mkPgError "503" "upstream unavailable")))
             10%nat 10%nat new_take).2 !! "P7.mp3" = Some [Byte.x02; Byte.x03]
  /\ participants (QC.replace_audio_POST world_p7
                     (QC.mkReplaceEnv None None (Some (mkPgError "503" "upstream unavailable")))
                     10%nat 10%nat new_take).2 = participants world_p7.
Proof.
  destruct (replace_audio_keeps_its_upload world_p7
              (QC.mkReplaceEnv None None (Some (mkPgError "503" "upstream unavailable")))
              10%nat 10%nat "P7" [Byte.x02; Byte.x03] (Some "re-recorded"))
    as (Hst & Hfail & _); [discriminate | reflexivity |].
  split.
  - unfold new_take. rewrite Hst. apply lookup_insert_eq.
  - unfold new_take. exact (proj2 (Hfail _ eq_refl)).
Defined.

(** ** The audio generation script as a whole *)

Lemma main_world (lenv : Batch.LowEnv) (env : Batch.Env) (w : World) :
  (Batch.main lenv env w).2
  = (Batch.processMediumHighConditions env (Batch.processLowCondition lenv w).2).2.
Proof.
  unfold Batch.main.
  destruct (Batch.processLowCondition lenv w) as [[lowUpdated report] w1]. simpl.
  by destruct (Batch.processMediumHighConditions env w1) as [[generated errors] w2].
Qed.

Lemma mark_generated_same_but_audio (path : string) (now : Timestamp) (p : Participant) :
  same_but_audio p (Batch.mark_generated path now p).
Proof. repeat split. Qed.

Lemma row_update_same_but_audio (renv : Batch.RecordEnv) (pid : string)
    (cond : option string) (p : Participant) :
  same_but_audio p (row_update renv pid cond p).
Proof.
  unfold row_update, iteration. repeat case_match; repeat split.
Qed.

(** The low branch changes a row only by marking a pending low row
    generated. *)
Lemma low_run_lookup (lenv : Batch.LowEnv) (w : World) (pid : string) :
  participants (Batch.processLowCondition lenv w).2 !! pid = participants w !! pid
  \/ exists p, participants w !! pid = Some p /\ Batch.is_low_pending p = true
       /\ participants (Batch.processLowCondition lenv w).2 !! pid
          = Some (Batch.mark_generated "low.mp3" (Batch.low_now lenv) p).
Proof.
  destruct (low_run_effects lenv w) as [[-> | ->] _]; [by left|].
  rewrite update_low_pending_lookup.
  destruct (participants w !! pid) as [p|]; [|by left]. simpl.
  destruct (Batch.is_low_pending p) eqn:Hp; [right; eauto | by left].
Qed.

(** The medium/high branch changes a row only by applying the update of its
    iteration to a pending medium or high row. *)
Lemma medium_high_lookup (env : Batch.Env) (w : World) (pid : string) :
  scans_table (Batch.row_order env) ->
  participants (Batch.processMediumHighConditions env w).2 !! pid = participants w !! pid
  \/ exists p, participants w !! pid = Some p /\ Batch.is_medium_high_pending p = true
       /\ (pid, p) ∈ processed env (participants w)
       /\ participants (Batch.processMediumHighConditions env w).2 !! pid
          = Some (row_update (Batch.record_env env pid) pid (condition p) p).
Proof.
  intros Hscan.
  destruct (processed_spec env (participants w) (Hscan _)) as (_ & Hnd & Hrows).
  rewrite processMediumHighConditions_unfold.
  set (rows := processed env (participants w)) in *.
  set (fetched := map (fun kp => (fst kp, condition (snd kp))) rows).
  assert (fetched.*1 = rows.*1) as Hfst.
  { unfold fetched. rewrite <- list_fmap_compose. by apply list_fmap_ext. }
  assert (NoDup fetched.*1) as Hnd' by (by rewrite Hfst).
  destruct (process_all_spec env fetched Hnd' 0 0 w) as (_ & Hother & Hself).
  destruct (decide (pid ∈ rows.*1)) as [Hin | Hnot].
  - apply list_elem_of_fmap in Hin as ([pid' p] & Heq & Hin). simpl in Heq. subst pid'.
    destruct (Hrows pid p Hin) as [Hp Hpending]. right. exists p.
    split; [done|]. split; [done|]. split; [done|].
    rewrite (Hself pid (condition p)), Hp; [done|].
    unfold fetched. apply list_elem_of_fmap. by exists (pid, p).
  - left. apply Hother. by rewrite Hfst.
Qed.

(** X13: a run of the script never creates or removes a row and writes
    nothing but the four audio fields; a row whose audio status is not
    ['pending'] when the run starts (generated or in error) is left exactly as
    it was, so nothing is retried or regenerated by a run. *)
Theorem batch_run_touches_only_pending_rows (lenv : Batch.LowEnv) (env : Batch.Env)
    (w : World) :
  scans_table (Batch.row_order env) ->
  (forall pid, participants w !! pid = None ->
     participants (Batch.main lenv env w).2 !! pid = None)
  /\ (forall pid p, participants w !! pid = Some p ->
        exists p', participants (Batch.main lenv env w).2 !! pid = Some p'
          /\ same_but_audio p p'
          /\ (audio_status p <> Some "pending" -> p' = p)).
Proof.
  intros Hscan. rewrite main_world.
  set (w1 := (Batch.processLowCondition lenv w).2).
  split.
  - intros pid Hnone.
    assert (participants w1 !! pid = None) as Hn1.
    { destruct (low_run_lookup lenv w pid) as [Hlow | (p0 & Hp0 & _)].
      - fold w1 in Hlow. by rewrite Hlow.
      - rewrite Hnone in Hp0. discriminate. }
    destruct (medium_high_lookup env w1 pid Hscan) as [Hmh | (p & Hp & _)].
    + by rewrite Hmh.
    + rewrite Hn1 in Hp. discriminate.
  - intros pid p Hp.
    assert (exists p1, participants w1 !! pid = Some p1 /\ same_but_audio p p1
              /\ (audio_status p <> Some "pending" -> p1 = p)
              /\ (audio_status p1 = Some "pending" -> p1 = p)) as (p1 & Hp1 & Hsame1 & Hkeep1 & Hback).
    { destruct (low_run_lookup lenv w pid) as [Hlow | (p0 & Hp0 & Hpending & Hlow)];
        fold w1 in Hlow.
      - exists p. rewrite Hlow. repeat split; done.
      - assert (p0 = p) as -> by congruence.
        exists (Batch.mark_generated "low.mp3" (Batch.low_now lenv) p).
        split; [done|]. split; [apply mark_generated_same_but_audio|]. split.
        + intros Hnot. exfalso. apply Hnot.
          unfold Batch.is_low_pending in Hpending.
          apply andb_true_iff in Hpending as [_ Hs]. by apply is_str_true.
        + simpl. discriminate. }
    destruct (medium_high_lookup env w1 pid Hscan) as [Hmh | (p1' & Hp1' & Hpending & _ & Hmh)].
    + exists p1. rewrite Hmh. done.
    + assert (p1' = p1) as -> by congruence.
      assert (audio_status p1 = Some "pending") as Hs.
      { unfold Batch.is_medium_high_pending in Hpending.
        apply andb_true_iff in Hpending as [_ Hs]. by apply is_str_true. }
      assert (p1 = p) as -> by (by apply Hback).
      eexists. split; [exact Hmh|].
      split; [apply row_update_same_but_audio|]. intros Hnot. by destruct Hnot.
Qed.

(** An identifier absent from the table stays absent, and a high row whose
    audio is already generated comes out of a run unchanged. *)
Lemma batch_run_touches_only_pending_rows_witness :
  participants (Batch.main low_env_ok env_p3_refused world_medium_high).2 !! "P9" = None
  /\ exists p', participants (Batch.main low_env_ok env_p3_refused
                               (mkWorld qc_table [] ∅ [])).2 !! "P7" = Some p'
       /\ p' = high_generated_unreviewed.
Proof.
  destruct (batch_run_touches_only_pending_rows low_env_ok env_p3_refused world_medium_high)
    as [Hnone _]; [intros db; reflexivity|].
  destruct (batch_run_touches_only_pending_rows low_env_ok env_p3_refused
              (mkWorld qc_table [] ∅ [])) as [_ Hrow]; [intros db; reflexivity|].
  split; [apply Hnone; vm_compute; reflexivity|].
  destruct (Hrow "P7" high_generated_unreviewed) as (p' & Hp' & _ & Hkeep);
    [vm_compute; reflexivity|].
  exists p'. split; [exact Hp'|]. apply Hkeep. discriminate.
Defined.

Lemma iteration_uploaded (renv : Batch.RecordEnv) (pid : string) (cond : option string) :
  fst (iteration renv pid cond) = true <-> is_Some (uploaded renv cond).
Proof.
  unfold iteration, uploaded, text_for.
  destruct (Batch.tts renv _); [destruct (Batch.upload_fault renv)|]; simpl;
    split; try done; try (by intros [? ?]); eauto.
Qed.

Lemma process_record_storage (renv : Batch.RecordEnv) (pid : string)
    (cond : option string) (w : World) :
  storage (snd (Batch.process_record renv pid cond w))
  = match uploaded renv cond with
    | Some audio => <[pid +:+ ".mp3" := audio]> (storage w)
    | None => storage w
    end
  /\ tts_requests (snd (Batch.process_record renv pid cond w))
     = tts_requests w ++ [text_for cond].
Proof.
  unfold Batch.process_record, uploaded, text_for, Batch.generateAudio, Batch.uploadAudio,
    storage_upload, Batch.on_catch.
  destruct (Batch.tts renv _); [destruct (Batch.upload_fault renv)|]; done.
Qed.

(** The bucket and the provider through the loop: each row whose synthesis
    and upload succeed has its audio at its own path at the end, the other
    paths are as before, and the provider has received one request per row. *)
Lemma process_all_storage (env : Batch.Env) (rows : list (string * option string)) :
  NoDup rows.*1 ->
  forall (generated errors : nat) (w : World),
    (forall path, (forall pid cond, (pid, cond) ∈ rows -> pid +:+ ".mp3" <> path) ->
       storage (Batch.process_all env rows generated errors w).2 !! path = storage w !! path)
    /\ (forall pid cond audio, (pid, cond) ∈ rows ->
          uploaded (Batch.record_env env pid) cond = Some audio ->
          storage (Batch.process_all env rows generated errors w).2 !! (pid +:+ ".mp3")
          = Some audio)
    /\ tts_requests (Batch.process_all env rows generated errors w).2
       = tts_requests w ++ map (fun row => text_for row.2) rows.
Proof.
  induction rows as [|[pid0 cond0] rest IH]; intros Hnd generated errors w.
  - simpl. split; [done|]. split; [|by rewrite app_nil_r].
    intros pid cond audio H. by apply elem_of_nil in H.
  - rewrite fmap_cons in Hnd. apply NoDup_cons in Hnd as [Hfresh Hnd]. simpl in Hfresh.
    destruct (process_record_storage (Batch.record_env env pid0) pid0 cond0 w) as [Hst Hreq].
    simpl.
    destruct (Batch.process_record (Batch.record_env env pid0) pid0 cond0 w) as [flag w1].
    simpl in Hst, Hreq.
    assert (forall g e,
      (forall path, (forall pid cond, (pid, cond) ∈ (pid0, cond0) :: rest ->
                       pid +:+ ".mp3" <> path) ->
         storage (Batch.process_all env rest g e w1).2 !! path = storage w !! path)
      /\ (forall pid cond audio, (pid, cond) ∈ (pid0, cond0) :: rest ->
            uploaded (Batch.record_env env pid) cond = Some audio ->
            storage (Batch.process_all env rest g e w1).2 !! (pid +:+ ".mp3") = Some audio)
      /\ tts_requests (Batch.process_all env rest g e w1).2
         = tts_requests w ++ text_for cond0 :: map (fun row => text_for row.2) rest)
      as Hstep.
    { intros g e. destruct (IH Hnd g e w1) as (Hother & Hself & Hrequests).
      split; [|split].
      - intros path Hpath. rewrite Hother.
        + rewrite Hst. destruct (uploaded _ cond0); [|done].
          apply lookup_insert_ne. apply (Hpath pid0 cond0). apply list_elem_of_here.
        + intros pid cond Hin. apply (Hpath pid cond). by apply list_elem_of_further.
      - intros pid cond audio Hin Hup. apply elem_of_cons in Hin as [[= -> ->] | Hin].
        + rewrite Hother.
          * rewrite Hst, Hup. apply lookup_insert_eq.
          * intros pid cond Hin Heq. apply append_inj_l in Heq as ->.
            apply Hfresh. apply list_elem_of_fmap. by exists (pid0, cond).
        + by apply (Hself pid cond).
      - rewrite Hrequests, Hreq, <- app_assoc. reflexivity. }
    destruct flag; apply Hstep.
Qed.

(** X14: after a run of the medium/high branch every processed row whose
    audio status is generated has its audio in the bucket, at the path stored
    in the row, and that audio is what the provider returned for the text of
    the row's condition; the audio is in the bucket as soon as synthesis and
    upload succeed, also when the status update is refused. *)
Theorem generated_rows_have_their_audio (env : Batch.Env) (w : World)
    (pid : string) (p : Participant) :
  scans_table (Batch.row_order env) ->
  (pid, p) ∈ processed env (participants w) ->
  let w' := (Batch.processMediumHighConditions env w).2 in
  (forall audio, uploaded (Batch.record_env env pid) (condition p) = Some audio ->
     storage w' !! (pid +:+ ".mp3") = Some audio)
  /\ (forall p', participants w' !! pid = Some p' -> audio_status p' = Some "generated" ->
        audio_path p' = Some (pid +:+ ".mp3")
        /\ exists audio,
             Batch.tts (Batch.record_env env pid) (text_for (condition p)) = Batch.TtsAudio audio
             /\ storage w' !! (pid +:+ ".mp3") = Some audio).
Proof.
  intros Hscan Hin. cbv zeta.
  destruct (processed_spec env (participants w) (Hscan _)) as (_ & Hnd & Hrows).
  destruct (Hrows pid p Hin) as [Hp Hpending].
  rewrite processMediumHighConditions_unfold.
  set (rows := processed env (participants w)) in *.
  set (fetched := map (fun kp => (fst kp, condition (snd kp))) rows).
  assert (fetched.*1 = rows.*1) as Hfst.
  { unfold fetched. rewrite <- list_fmap_compose. by apply list_fmap_ext. }
  assert (NoDup fetched.*1) as Hnd' by (by rewrite Hfst).
  assert ((pid, condition p) ∈ fetched) as Hin'.
  { unfold fetched. apply list_elem_of_fmap. by exists (pid, p). }
  destruct (process_all_storage env fetched Hnd' 0 0 w) as (_ & Hstored & _).
  destruct (process_all_spec env fetched Hnd' 0 0 w) as (_ & _ & Hself).
  split; [intros audio Hup; exact (Hstored pid (condition p) audio Hin' Hup)|].
  intros p' Hp' Hgen. rewrite (Hself pid (condition p) Hin'), Hp in Hp'.
  injection Hp' as <-.
  assert (audio_status p = Some "pending") as Hs.
  { unfold Batch.is_medium_high_pending in Hpending.
    apply andb_true_iff in Hpending as [_ Hs]. by apply is_str_true. }
  unfold row_update in Hgen |- *.
  destruct (Batch.status_update_fault (Batch.record_env env pid)); [congruence|].
  destruct (fst (iteration (Batch.record_env env pid) pid (condition p))) eqn:Hflag.
  - rewrite (iteration_generated _ _ _ Hflag). split; [done|].
    apply iteration_uploaded in Hflag as [audio Hup]. exists audio.
    split; [|exact (Hstored pid (condition p) audio Hin' Hup)].
    unfold uploaded in Hup. destruct (Batch.tts _ _) as [a|]; [|done].
    destruct (Batch.upload_fault _); [done|]. congruence.
  - destruct (iteration_error _ _ _ Hflag) as (msg & _ & Heq).
    rewrite Heq in Hgen. discriminate Hgen.
Qed.

Lemma generated_rows_have_their_audio_witness :
  storage (Batch.processMediumHighConditions env_p3_refused world_medium_high).2 !! "P2.mp3"
  = Some [Byte.x49; Byte.x44; Byte.x33].
Proof.
  destruct (generated_rows_have_their_audio env_p3_refused world_medium_high
              "P2" medium_pending) as [H _].
  - intros db. reflexivity.
  - assert (processed env_p3_refused (participants world_medium_high)
            = [("P3", high_pending); ("P2", medium_pending)]) as ->
      by (vm_compute; reflexivity).
    apply list_elem_of_further, list_elem_of_here.
  - apply H. reflexivity.
Defined.

(** X15: the medium/high branch sends the provider exactly one request per
    fetched row, in fetch order, with the medium text for a medium row and the
    high text for any other; with the low branch, which sends at most one, a
    run of the script sends at most 51 requests. *)
Theorem batch_run_requests (lenv : Batch.LowEnv) (env : Batch.Env) (w : World) :
  tts_requests (Batch.processMediumHighConditions env w).2
  = tts_requests w
    ++ map (fun kp => if is_str (condition kp.2) "medium"
                      then Batch.TEXTS_medium else Batch.TEXTS_high)
         (processed env (participants w))
  /\ (length (tts_requests (Batch.main lenv env w).2) <= length (tts_requests w) + 51)%nat.
Proof.
  assert (forall w0, tts_requests (Batch.processMediumHighConditions env w0).2
            = tts_requests w0
              ++ map (fun kp => text_for (condition kp.2)) (processed env (participants w0)))
    as Hmh.
  { intros w0. rewrite processMediumHighConditions_unfold.
    set (rows := processed env (participants w0)).
    assert (forall (l : list (string * option string)) g e w1,
              tts_requests (Batch.process_all env l g e w1).2
              = tts_requests w1 ++ map (fun row => text_for row.2) l) as Hreq.
    { induction l as [|[pid0 cond0] rest IH]; intros g e w1; simpl.
      - by rewrite app_nil_r.
      - pose proof (proj2 (process_record_storage (Batch.record_env env pid0) pid0 cond0 w1))
          as Hone.
        destruct (Batch.process_record _ _ _ _) as [[] w2]; simpl in Hone;
          rewrite IH, Hone, <- app_assoc; reflexivity. }
    rewrite Hreq, map_map. reflexivity. }
  split; [apply Hmh|].
  rewrite main_world, Hmh, length_app, length_map.
  assert (length (processed env (participants (Batch.processLowCondition lenv w).2)) <= 50)%nat.
  { unfold processed. destruct (Batch.fetch_fault env); [simpl; lia|].
    rewrite length_take. unfold Batch.BATCH_SIZE. lia. }
  rewrite low_run_requests. destruct (Batch.lowFileExists _); [lia|].
  rewrite length_app. simpl. lia.
Qed.

Lemma iteration_flag (renv : Batch.RecordEnv) (pid : string) (cond : option string) :
  fst (iteration renv pid cond) = stores renv cond.
Proof.
  unfold iteration, stores, uploaded, text_for.
  destruct (Batch.tts renv _); [by destruct (Batch.upload_fault renv) | done].
Qed.

Lemma process_all_counters (env : Batch.Env) (rows : list (string * option string))
    (generated errors : nat) (w : World) :
  (Batch.process_all env rows generated errors w).1.1
  = (generated
     + length (List.filter
                 (fun row => stores (Batch.record_env env row.1) row.2)
                 rows))%nat
  /\ (Batch.process_all env rows generated errors w).1.2
     = (errors
        + length (List.filter
                    (fun row => negb (stores (Batch.record_env env row.1) row.2))
                    rows))%nat.
Proof.
  revert generated errors w. induction rows as [|[pid cond] rest IH]; intros generated errors w.
  - simpl. lia.
  - simpl.
    pose proof (proj1 (process_record_iteration (Batch.record_env env pid) pid cond w)) as Hflag.
    rewrite iteration_flag in Hflag.
    destruct (Batch.process_record (Batch.record_env env pid) pid cond w) as [flag w1].
    simpl in Hflag. subst flag.
    destruct (stores (Batch.record_env env pid) cond); simpl;
      destruct (IH (S generated) errors w1) as [H1 H2];
      destruct (IH generated (S errors) w1) as [H3 H4]; split; lia.
Qed.

(** X16: what the two counters of the medium/high branch count.  [generated]
    is the number of fetched rows whose synthesis and upload both succeeded and
    [errors] the number of the others: the result of the status update plays
    no part, so a row can be counted as generated while its record still says
    pending. *)
Theorem medium_high_counters_count_uploads (env : Batch.Env) (w : World) :
  let rows := processed env (participants w) in
  (Batch.processMediumHighConditions env w).1.1
  = length (List.filter
              (fun kp => stores (Batch.record_env env kp.1) (condition kp.2)) rows)
  /\ (Batch.processMediumHighConditions env w).1.2
     = length (List.filter
                 (fun kp => negb (stores (Batch.record_env env kp.1) (condition kp.2))) rows).
Proof.
  cbv zeta. rewrite processMediumHighConditions_unfold.
  destruct (process_all_counters env
              (map (fun kp => (fst kp, condition (snd kp))) (processed env (participants w)))
              0 0 w) as [-> ->].
  assert (forall (f : string * option string -> bool) (l : list (string * Participant)),
            length (List.filter f (map (fun kp => (fst kp, condition (snd kp))) l))
            = length (List.filter (fun kp => f (fst kp, condition (snd kp))) l)) as Hmap.
  { intros f l. induction l as [|x l IH]; simpl; [done|].
    destruct (f _); simpl; by rewrite IH. }
  rewrite !Hmap. done.
Qed.

(** ** The middleware *)

Lemma split_parts_lack (sep : Ascii.ascii) (s part : string) :
  part ∈ Middleware.split sep s -> lacks sep part.
Proof.
  revert part. induction s as [|c rest IH]; intros part Hin; simpl in Hin.
  - apply list_elem_of_singleton in Hin as ->. exact I.
  - destruct (Ascii.eqb_spec c sep) as [->|Hne].
    + apply elem_of_cons in Hin as [-> | Hin]; [exact I | by apply IH].
    + destruct (Middleware.split sep rest) as [|first others].
      * apply list_elem_of_singleton in Hin as ->. by split.
      * apply elem_of_cons in Hin as [-> | Hin].
        -- split; [done|]. apply IH, list_elem_of_here.
        -- by apply IH, list_elem_of_further.
Qed.

Lemma split_before_separator (sep : Ascii.ascii) (a b : string) :
  lacks sep a ->
  Middleware.split sep (a +:+ String sep b) = a :: Middleware.split sep b.
Proof.
  induction a as [|c a IH]; intros Hlacks.
  - change ("" +:+ String sep b) with (String sep b). simpl.
    by rewrite Ascii.eqb_refl.
  - destruct Hlacks as [Hne Hlacks]. rewrite append_cons. simpl.
    apply Ascii.eqb_neq in Hne. rewrite Hne, (IH Hlacks). reflexivity.
Qed.

Lemma prefix_append (a b : string) : String.prefix a (a +:+ b) = true.
Proof.
  induction a as [|c a IH].
  - change ("" +:+ b) with b. by destruct b.
  - rewrite append_cons. simpl. by destruct (Ascii.ascii_dec c c).
Qed.

Lemma split_without_separator (sep : Ascii.ascii) (s : string) :
  lacks sep s -> Middleware.split sep s = [s].
Proof.
  induction s as [|c s IH]; intros Hlacks; [reflexivity|].
  destruct Hlacks as [Hne Hlacks]. simpl.
  apply Ascii.eqb_neq in Hne. rewrite Hne, (IH Hlacks). reflexivity.
Qed.

(** A case in which the middleware answers something other than a pass. *)
Ltac not_passed :=
  split; [discriminate|];
  intros (? & ? & ? & ? & ? & ? & ? & ? & ? & ? & ? & ?); simplify_eq; (done || congruence).

Section Guard.

Variable atob : string -> option string.

(** X17: a request whose path does not start with [/admin] is passed on
    without any look at its credentials; this holds for every path under
    [/api/], where the QC routes [/api/admin/qc/...] live. *)
Theorem api_routes_pass_the_middleware (authorization : option string)
    (ADMIN_PASSWORD : option string) :
  (forall pathname, String.prefix "/admin" pathname = false ->
     Middleware.middleware atob pathname authorization ADMIN_PASSWORD = Middleware.Next)
  /\ (forall rest,
        Middleware.middleware atob ("/api/" +:+ rest) authorization ADMIN_PASSWORD
        = Middleware.Next).
Proof.
  split.
  - intros pathname Hpath. unfold Middleware.middleware. by rewrite Hpath.
  - intros rest. reflexivity.
Qed.

(** When a request to the admin area is passed on. *)
Lemma middleware_passes (pathname : string) (authorization : option string)
    (ADMIN_PASSWORD : option string) :
  String.prefix "/admin" pathname = true ->
  Middleware.middleware atob pathname authorization ADMIN_PASSWORD = Middleware.Next <->
  exists authHeader base64Credentials credentials password,
    authorization = Some authHeader
    /\ String.prefix "Basic " authHeader = true
    /\ Middleware.split Middleware.space authHeader !! 1%nat = Some base64Credentials
    /\ atob base64Credentials = Some credentials
    /\ Middleware.split Middleware.colon credentials !! 0%nat = Some "admin"
    /\ Middleware.split Middleware.colon credentials !! 1%nat = Some password
    /\ ADMIN_PASSWORD = Some password /\ password <> "".
Proof.
  intros Hadmin. unfold Middleware.middleware. rewrite Hadmin. cbn [negb].
  destruct authorization as [authHeader|]; [|not_passed].
  destruct (negb (truthy (Some authHeader))) eqn:Htruthy; cbn [orb].
  { split; [done|]. intros (h & b & c & pw & [= <-] & Hp & _).
    simpl in Htruthy. apply negb_true_iff, negb_false_iff, String.eqb_eq in Htruthy.
    subst authHeader. discriminate Hp. }
  destruct (String.prefix "Basic " authHeader) eqn:Hbasic; cbn [negb]; [|not_passed].
  destruct (Middleware.split Middleware.space authHeader !! 1%nat) as [b64|] eqn:Hb64;
    [|not_passed].
  destruct (atob b64) as [creds|] eqn:Hatob; [|not_passed].
  destruct ADMIN_PASSWORD as [adminPassword|]; [|not_passed].
  cbn [truthy]. destruct (String.eqb_spec adminPassword "") as [->|Hpw]; cbn [negb];
    [not_passed|].
  case_bool_decide as Huser; cbn [negb orb]; [|not_passed].
  case_bool_decide as Hpass; cbn [negb]; [|not_passed].
  split; [|done]. intros _. exists authHeader, b64, creds, adminPassword. done.
Qed.

(** X18: the guard of the admin area.  A request to a path starting with
    [/admin] is passed on only with a Basic header whose second part, the
    header being split at spaces, decodes to credentials that have user name
    [admin] and, as the text between the first and the second colon, the
    configured password; without [ADMIN_PASSWORD], or with an empty one, no
    request is passed on.  A header [Basic b] where [b] decodes
    to [admin:] followed by a configured password without colon is passed
    on. *)
Theorem admin_area_guard (pathname : string) (authorization : option string)
    (ADMIN_PASSWORD : option string) :
  String.prefix "/admin" pathname = true ->
  (Middleware.middleware atob pathname authorization ADMIN_PASSWORD = Middleware.Next ->
     exists authHeader base64Credentials credentials password,
       authorization = Some authHeader
       /\ String.prefix "Basic " authHeader = true
       /\ Middleware.split Middleware.space authHeader !! 1%nat = Some base64Credentials
       /\ atob base64Credentials = Some credentials
       /\ Middleware.split Middleware.colon credentials !! 0%nat = Some "admin"
       /\ Middleware.split Middleware.colon credentials !! 1%nat = Some password
       /\ ADMIN_PASSWORD = Some password /\ password <> "")
  /\ (truthy ADMIN_PASSWORD = false ->
      Middleware.middleware atob pathname authorization ADMIN_PASSWORD <> Middleware.Next)
  /\ (forall b password,
        lacks Middleware.space b -> lacks Middleware.colon password -> password <> "" ->
        atob b = Some ("admin" +:+ String Middleware.colon password) ->
        Middleware.middleware atob pathname (Some ("Basic" +:+ String Middleware.space b))
          (Some password) = Middleware.Next).
Proof.
  intros Hadmin. split; [|split].
  - intros Hnext. apply (middleware_passes _ _ _ Hadmin) in Hnext
      as (h & b & c & pw & ? & ? & ? & ? & ? & ? & ? & ?).
    exists h, b, c, pw. done.
  - intros Hpw Hnext. apply (middleware_passes _ _ _ Hadmin) in Hnext
      as (h & b & c & pw & _ & _ & _ & _ & _ & _ & -> & Hne).
    simpl in Hpw. apply negb_false_iff, String.eqb_eq in Hpw. done.
  - intros b password Hb Hpassword Hne Hatob.
    apply (middleware_passes _ _ _ Hadmin).
    exists ("Basic" +:+ String Middleware.space b), b,
      ("admin" +:+ String Middleware.colon password), password.
    split; [done|]. split; [apply (prefix_append "Basic " b)|]. split.
    { rewrite split_before_separator by (by vm_compute).
      by rewrite split_without_separator. }
    split; [done|].
    rewrite split_before_separator by (by vm_compute).
    rewrite split_without_separator by done. done.
Qed.

(** X19: a configured password that contains a colon locks the admin area:
    the middleware compares it with a text that never contains one, so no
    request to a path starting with [/admin] is passed on, whatever its
    header. *)
Theorem password_with_colon_locks_admin (pathname : string)
    (authorization : option string) (adminPassword : string) :
  String.prefix "/admin" pathname = true ->
  ~ lacks Middleware.colon adminPassword ->
  Middleware.middleware atob pathname authorization (Some adminPassword)
  <> Middleware.Next.
Proof.
  intros Hadmin Hcolon Hnext. apply (middleware_passes _ _ _ Hadmin) in Hnext
    as (h & b & c & pw & _ & _ & _ & _ & _ & Hpw & [= ->] & _).
  apply Hcolon. apply (split_parts_lack Middleware.colon c).
  by eapply list_elem_of_lookup_2.
Qed.

End Guard.

(** The approve route is reached without credentials and without a
    configured password. *)
Lemma api_routes_pass_the_middleware_witness :
  Middleware.middleware (fun _ => None) "/api/admin/qc/approve" None None = Middleware.Next.
Proof.
  apply (proj1 (api_routes_pass_the_middleware (fun _ => None) None None)). reflexivity.
Defined.

(** A runtime whose [atob] decodes the header of the example. *)
Lemma admin_area_guard_witness :
  let atob := fun b => if String.eqb b "YWRtaW46czNjcmV0" then Some "admin:s3cret" else None in
  Middleware.middleware atob "/admin/qc" (Some "Basic YWRtaW46czNjcmV0") (Some "s3cret")
  = Middleware.Next.
Proof.
  intros atob.
  destruct (admin_area_guard atob "/admin/qc" None None eq_refl) as (_ & _ & H).
  apply (H "YWRtaW46czNjcmV0" "s3cret"); [by vm_compute | by vm_compute | discriminate |].
  reflexivity.
Defined.

Lemma password_with_colon_locks_admin_witness :
  let atob := fun b => if String.eqb b "YWRtaW46YTpi" then Some "admin:a:b" else None in
  Middleware.middleware atob "/admin/qc" (Some "Basic YWRtaW46YTpi") (Some "a:b")
  <> Middleware.Next.
Proof.
  intros atob. apply password_with_colon_locks_admin; [reflexivity|].
  vm_compute. intros (_ & Hc & _). by apply Hc.
Defined.
